(** * gcs-downloader: a shallow embedding of [main.py]

    The program is a thin orchestration layer over the external [gsutil]
    command: a size probe, a listing, a copy, a polling progress
    monitor, a thread pool for batches and an interactive front end.
    Python integers are [Z], strings are [string], exceptions are an
    explicit [result] type, and everything the program reads from
    outside (subprocess results, file system, keyboard) is a field of a
    [World] record or of the threaded [State]. *)

From Stdlib Require Import ZArith Lia Bool Ascii.
From stdpp Require Import gmap strings list pretty.

Local Open Scope Z_scope.

(* ===================================================================== *)
(** * Python values, exceptions and string primitives                     *)
(* ===================================================================== *)

Module Py.

(** The exceptions that can travel through [main.py]. *)
Inductive exn : Type :=
| ValueError
| IndexError
| EOFError
| FileNotFoundError
| CalledProcessError (returncode : Z) (cmd : list string)
| OSError (msg : string)
| SystemExit (code : Z).

Inductive result (A : Type) : Type :=
| Returned (a : A)
| Raised (e : exn).
Arguments Returned {A} a.
Arguments Raised {A} e.

Definition is_returned {A} (r : result A) : bool :=
  match r with Returned _ => true | Raised _ => false end.

(** [s.startswith(p)] *)
Definition startswith (p s : string) : bool := String.prefix p s.

(** [s.rstrip('/')]: every trailing slash is removed. *)
Fixpoint rstrip_slash (s : string) : string :=
  match s with
  | EmptyString => EmptyString
  | String c rest =>
      match rstrip_slash rest with
      | EmptyString => if Ascii.eqb c "/"%char then EmptyString else String c EmptyString
      | r => String c r
      end
  end.

(** [os.path.basename(p)]: what follows the last slash. *)
Fixpoint basename (p : string) : string :=
  match p with
  | EmptyString => EmptyString
  | String c rest =>
      if existsb (Ascii.eqb "/"%char) (String.list_ascii_of_string rest) then basename rest
      else if Ascii.eqb c "/"%char then rest
      else p
  end.

Fixpoint endswith_slash (s : string) : bool :=
  match s with
  | EmptyString => false
  | String c EmptyString => Ascii.eqb c "/"%char
  | String _ rest => endswith_slash rest
  end.

(** [os.path.join(a, b)] of [posixpath]. *)
Definition path_join (a b : string) : string :=
  if startswith "/" b then b
  else if String.eqb a "" || endswith_slash a then a +:+ b
  else a +:+ "/" +:+ b.

(** ASCII white space as [str.strip], [str.split] and [int] see it. *)
Definition is_space (c : ascii) : bool :=
  let k := nat_of_ascii c in
  ((9 <=? k) && (k <=? 13) || (28 <=? k) && (k <=? 32))%nat.

Fixpoint lstrip_chars (l : list ascii) : list ascii :=
  match l with
  | c :: rest => if is_space c then lstrip_chars rest else l
  | [] => []
  end.

(** [s.strip()] *)
Definition strip (s : string) : string :=
  String.string_of_list_ascii
    (rev (lstrip_chars (rev (lstrip_chars (String.list_ascii_of_string s))))).

(** [s.split(sep)] for a one-character separator: empty fields are
    kept, and the empty string gives one empty field. *)
Fixpoint split_on (sep : ascii) (s : string) : list string :=
  match s with
  | EmptyString => [EmptyString]
  | String c rest =>
      if Ascii.eqb c sep then EmptyString :: split_on sep rest
      else match split_on sep rest with
           | w :: ws => String c w :: ws
           | [] => [String c EmptyString]
           end
  end.

(** [s.split()]: the maximal runs of characters that are not white
    space. *)
Fixpoint split_ws_go (cur : list ascii) (l : list ascii) : list string :=
  match l with
  | [] => match cur with
          | [] => []
          | _ => [String.string_of_list_ascii (rev cur)]
          end
  | c :: rest =>
      if is_space c
      then match cur with
           | [] => split_ws_go [] rest
           | _ => String.string_of_list_ascii (rev cur) :: split_ws_go [] rest
           end
      else split_ws_go (c :: cur) rest
  end.

Definition split_ws (s : string) : list string :=
  split_ws_go [] (String.list_ascii_of_string s).

Definition digit_value (c : ascii) : option Z :=
  let k := nat_of_ascii c in
  if ((48 <=? k) && (k <=? 57))%nat then Some (Z.of_nat k - 48) else None.

(** Decimal digits, single underscores allowed between two digits. *)
Fixpoint int_digits (acc : Z) (after_digit : bool) (l : list ascii) : option Z :=
  match l with
  | [] => if after_digit then Some acc else None
  | c :: rest =>
      match digit_value c with
      | Some d => int_digits (10 * acc + d) true rest
      | None =>
          if Ascii.eqb c "_"%char && after_digit
          then int_digits acc false rest
          else None
      end
  end.

(** [int(s)] on an ASCII string: [ValueError] when [s] is not an
    optionally signed decimal literal surrounded by white space. *)
Definition int (s : string) : result Z :=
  let body sign l :=
    match int_digits 0 false l with
    | Some v => Returned (sign * v)
    | None => Raised ValueError
    end in
  match String.list_ascii_of_string (strip s) with
  | c :: rest =>
      if Ascii.eqb c "-"%char then body (-1) rest
      else if Ascii.eqb c "+"%char then body 1 rest
      else body 1 (c :: rest)
  | [] => Raised ValueError
  end.

(** [needle in s] *)
Fixpoint contains (needle s : string) : bool :=
  String.prefix needle s
  || match s with
     | EmptyString => false
     | String _ rest => contains needle rest
     end.

Definition is_linebreak (c : ascii) : bool :=
  let k := nat_of_ascii c in
  ((10 <=? k) && (k <=? 13) || (28 <=? k) && (k <=? 30))%nat.

(** [s.splitlines()[0]]: [None] stands for the [IndexError] on the
    empty string. *)
Fixpoint first_line_go (s : string) : string :=
  match s with
  | EmptyString => EmptyString
  | String c rest => if is_linebreak c then EmptyString else String c (first_line_go rest)
  end.

Definition first_line (s : string) : option string :=
  match s with
  | EmptyString => None
  | _ => Some (first_line_go s)
  end.

(** Python truthiness of a string and of an optional argument. *)
Definition truthy (s : string) : bool := negb (String.eqb s "").

Definition truthy_opt (o : option string) : bool :=
  match o with Some s => truthy s | None => false end.

End Py.
Export Py.

(* ===================================================================== *)
(** * The progress monitor: [update_progress] inside
      [download_with_progress]                                            *)
(* ===================================================================== *)

Module Monitor.

(** The part of a [tqdm] bar the program touches. *)
Record ProgressBar : Type := mkBar {
  total : Z;        (* [tqdm(total=...)] *)
  n : Z;            (* bytes shown so far; a fresh bar starts at [0] *)
  closed : bool
}.

Definition tqdm (total_size : Z) : ProgressBar :=
  {| total := total_size; n := 0; closed := false |}.

(** [progress_bar.update(k)] adds [k] to the position. *)
Definition update (k : Z) (b : ProgressBar) : ProgressBar :=
  {| total := total b; n := n b + k; closed := closed b |}.

Definition close (b : ProgressBar) : ProgressBar :=
  {| total := total b; n := n b; closed := true |}.

(** What one poll finds at [destination]. [os.path.getsize] raises
    [OSError] on a file that vanished between the listing and the
    stat; such a file is [None]. *)
Inductive snapshot : Type :=
| Absent
| IsFile (size : option Z)
| IsDir (sizes : list (option Z)).

Fixpoint sum_sizes (l : list (option Z)) : option Z :=
  match l with
  | [] => Some 0
  | None :: _ => None
  | Some s :: rest =>
      match sum_sizes rest with
      | Some t => Some (s + t)
      | None => None
      end
  end.

(** Lines 89-94: [current_size], or [None] when an [OSError] is
    raised while measuring. *)
Definition current_size (d : snapshot) : option Z :=
  match d with
  | IsDir sizes => sum_sizes sizes
  | IsFile sz => sz
  | Absent => Some 0
  end.

(** The loop state: the local [previous_size] and the shared bar. *)
Record loop_state : Type := mkLoop {
  previous_size : Z;
  bar : ProgressBar
}.

Definition loop_init (b : ProgressBar) : loop_state :=
  {| previous_size := 0; bar := b |}.

(** One iteration of the [while] body on the measured size; [None] is
    the [except OSError] branch, which only sleeps. *)
Definition poll (obs : option Z) (st : loop_state) : loop_state :=
  match obs with
  | None => st
  | Some cur =>
      if cur >? previous_size st
      then {| previous_size := cur;
              bar := update (cur - previous_size st) (bar st) |}
      else st
  end.

(** The loop over the polls that happen before [download_complete] is
    seen set. *)
Fixpoint run_polls (obs : list (option Z)) (st : loop_state) : loop_state :=
  match obs with
  | [] => st
  | o :: rest => run_polls rest (poll o st)
  end.

Definition update_progress (b : ProgressBar) (dest : list snapshot) : loop_state :=
  run_polls (map current_size dest) (loop_init b).

(** The bar position after every poll, in order. *)
Fixpoint positions (obs : list (option Z)) (st : loop_state) : list Z :=
  match obs with
  | [] => []
  | o :: rest => n (bar (poll o st)) :: positions rest (poll o st)
  end.

(** The amount passed to [update] by every poll ([0] when the poll
    does not call it). *)
Fixpoint advances (obs : list (option Z)) (st : loop_state) : list Z :=
  match obs with
  | [] => []
  | o :: rest =>
      (n (bar (poll o st)) - n (bar st)) :: advances rest (poll o st)
  end.

(** Total advancement of the bar over a run. *)
Definition advancement (b : ProgressBar) (obs : list (option Z)) : Z :=
  n (bar (run_polls obs (loop_init b))) - n b.

(** The sizes the polls measured, failed polls left out. *)
Definition samples (obs : list (option Z)) : list Z := omap id obs.

(** What delta accounting asks of every poll: the difference to the
    sample before it ([prev] before the first), nothing for a failed
    poll. *)
Fixpoint deltas (prev : Z) (obs : list (option Z)) : list Z :=
  match obs with
  | [] => []
  | None :: rest => 0 :: deltas prev rest
  | Some cur :: rest => (cur - prev) :: deltas cur rest
  end.

Fixpoint nondecreasing (l : list Z) : Prop :=
  match l with
  | [] => True
  | x :: rest =>
      match rest with
      | [] => True
      | y :: _ => x <= y
      end /\ nondecreasing rest
  end.

End Monitor.

(* ===================================================================== *)
(** * The outside world and the program state                             *)
(* ===================================================================== *)

Module Sys.

(** A path of the local file system holds a directory or a file. *)
Inductive node : Type :=
| Dir
| File (content : string).

(** What [subprocess.run] meets: the executable is missing
    ([FileNotFoundError]) or the process exits with a status and an
    output. *)
Inductive proc : Type :=
| NotFound
| Exited (returncode : Z) (stdout : string).

Inductive event : Type :=
| Say (line : string)
| SayExc (prefix : string) (e : exn)      (* [print(f"...{e}")] *)
| SayHelp                                  (* [parser.print_help()] *)
| Ask (prompt : string)
| Run (argv : list string) (p : proc)        (* a finished [subprocess.run] *)
| Makedirs (path : string)
| BarCreate (total : Z) (desc : string)
| ThreadStart                                (* [progress_thread.start()] *)
| SetComplete                                (* [download_complete.set()] *)
| JoinThread (timeout_ms : Z) (exited : bool)      (* [progress_thread.join(timeout)] *)
| BarClose (position : Z).

(** Everything the program asks of its environment. *)
Record World : Type := mkWorld {
  (* the external processes, with their effect on the local files *)
  subprocess_run : list string -> gmap string node -> proc * gmap string node;
  (* [os.makedirs] fails with this [OSError] text *)
  makedirs_error : string -> option string;
  (* [$HOME] and the password database, for [os.path.expanduser] *)
  home : string;
  pw_dir : string -> option string;
  (* [importlib.util.find_spec(name) is not None] *)
  find_spec : string -> bool;
  (* [sys.executable] *)
  executable : string;
  (* what the monitor of a download to this destination sees at its
     polls before it observes the stop flag, and whether it has
     exited when the join returns *)
  monitor_polls : string -> list Monitor.snapshot;
  monitor_exited : string -> bool
}.

(** The mutable part: the file system, what is left of the keyboard
    input, the trace of effects, and the two module globals. *)
Record State : Type := mkState {
  fs : gmap string node;
  stdin : list string;
  trace : list event;
  MAX_PARALLEL_DOWNLOADS : Z;
  MAX_THREADS_PER_DOWNLOAD : Z
}.

Definition set_fs (f : gmap string node) (st : State) : State :=
  mkState f (stdin st) (trace st)
          (MAX_PARALLEL_DOWNLOADS st) (MAX_THREADS_PER_DOWNLOAD st).

Definition set_stdin (l : list string) (st : State) : State :=
  mkState (fs st) l (trace st)
          (MAX_PARALLEL_DOWNLOADS st) (MAX_THREADS_PER_DOWNLOAD st).

Definition emit (e : event) (st : State) : State :=
  mkState (fs st) (stdin st) (trace st ++ [e])
          (MAX_PARALLEL_DOWNLOADS st) (MAX_THREADS_PER_DOWNLOAD st).

Definition set_globals (par thr : Z) (st : State) : State :=
  mkState (fs st) (stdin st) (trace st) par thr.

Definition init_state (files : gmap string node) (keyboard : list string) : State :=
  mkState files keyboard [] 16 8.

(** Computations: state passing with exceptions. *)
Definition M (A : Type) : Type := State -> result A * State.

Definition ret {A} (a : A) : M A := fun st => (Returned a, st).

Definition raise {A} (e : exn) : M A := fun st => (Raised e, st).

Definition bind {A B} (c : M A) (k : A -> M B) : M B :=
  fun st =>
    match c st with
    | (Returned a, st') => k a st'
    | (Raised e, st') => (Raised e, st')
    end.

Definition print (line : string) : M unit :=
  fun st => (Returned tt, emit (Say line) st).

Definition log (e : event) : M unit :=
  fun st => (Returned tt, emit e st).

(** [input(prompt)]: the next line of the keyboard, [EOFError] at its
    end. *)
Definition input (prompt : string) : M string :=
  fun st =>
    match stdin st with
    | line :: rest => (Returned line, emit (Ask prompt) (set_stdin rest st))
    | [] => (Raised EOFError, emit (Ask prompt) st)
    end.

Definition exists_ (path : string) : M bool :=
  fun st => (Returned (match fs st !! path with Some _ => true | None => false end), st).

Definition isdir (path : string) : M bool :=
  fun st => (Returned (match fs st !! path with Some Dir => true | _ => false end), st).

(** [os.makedirs(path)]: [FileExistsError] on an existing path,
    whatever [OSError] the world decides, and otherwise the directory
    is there afterwards. *)
Definition makedirs (w : World) (path : string) : M unit :=
  fun st =>
    match fs st !! path with
    | Some _ => (Raised (OSError "File exists"), st)
    | None =>
        match makedirs_error w path with
        | Some msg => (Raised (OSError msg), st)
        | None => (Returned tt, emit (Makedirs path) (set_fs (<[path := Dir]> (fs st)) st))
        end
    end.

(** [subprocess.run(argv, check=True)] *)
Definition run_checked (w : World) (argv : list string) : M string :=
  fun st =>
    let '(p, fs') := subprocess_run w argv (fs st) in
    let st' := emit (Run argv p) (set_fs fs' st) in
    match p with
    | NotFound => (Raised FileNotFoundError, st')
    | Exited code out =>
        if code =? 0 then (Returned out, st')
        else (Raised (CalledProcessError code argv), st')
    end.

(** [os.path.expanduser(path)] *)
Definition expanduser (w : World) (path : string) : string :=
  match path with
  | String c rest =>
      if Ascii.eqb c "~"%char then
        let name := hd EmptyString (split_on "/"%char rest) in
        let tail := String.substring (String.length name) (String.length rest) rest in
        let userhome :=
          if String.eqb name "" then Some (home w) else pw_dir w name in
        match userhome with
        | None => path
        | Some h =>
            let r := rstrip_slash h +:+ tail in
            if String.eqb r "" then "/" else r
        end
      else path
  | EmptyString => path
  end.

(** The two module globals. *)
Definition globals (st : State) : Z * Z :=
  (MAX_PARALLEL_DOWNLOADS st, MAX_THREADS_PER_DOWNLOAD st).

End Sys.
Export Sys.

Declare Scope py_scope.
Delimit Scope py_scope with py.
Notation "x <- c ;; k" := (Sys.bind c (fun x => k))
  (at level 100, c at next level, right associativity) : py_scope.
Notation "c ;;; k" := (Sys.bind c (fun _ => k))
  (at level 100, right associativity) : py_scope.

Local Open Scope py_scope.

(* ===================================================================== *)
(** * The storage client adapter and the single-item downloader           *)
(* ===================================================================== *)

Module Gsutil.

Definition du_argv (bucket_path : string) : list string :=
  ["gsutil"; "-q"; "du"; "-s"; bucket_path].

(** Lines 50-51: [int(result.stdout.strip().split()[0])] *)
Definition parse_size (out : string) : result Z :=
  match split_ws (strip out) with
  | size_str :: _ => Py.int size_str
  | [] => Raised IndexError
  end.

(** [get_size_of_object(bucket_path)] *)
Definition get_size_of_object (w : World) (bucket_path : string) : M Z :=
  fun st =>
    match run_checked w (du_argv bucket_path) st with
    | (Returned out, st') => (parse_size out, st')
    | (Raised (CalledProcessError _ _), st') => (Returned 0, st')
    | (Raised e, st') => (Raised e, st')
    end.

(** [list_objects(bucket_path)] *)
Definition list_objects (w : World) (bucket_path : string) : M (list string) :=
  fun st =>
    match run_checked w ["gsutil"; "ls"; bucket_path] st with
    | (Returned out, st') =>
        (Returned (filter (fun item => truthy item = true)
                          (split_on "010"%char (strip out))), st')
    | (Raised (CalledProcessError c a), st') =>
        (Returned [], emit (SayExc "Error listing objects: " (CalledProcessError c a)) st')
    | (Raised e, st') => (Raised e, st')
    end.

(** The command line of the copy, lines 118-130. *)
Definition cp_argv (threads : Z) (source destination : string) : list string :=
  [ "gsutil";
    "-m";
    "-o"; "GSUtil:parallel_thread_count=" +:+ pretty threads;
    "-o"; "GSUtil:parallel_process_count=1";
    "-o"; "GSUtil:sliced_object_download_threshold=64M";
    "-o"; "GSUtil:sliced_object_download_max_components=8";
    "cp";
    "-r";
    "-n";
    source;
    destination ].

(** Lines 113-135: the copy, and its [CalledProcessError] turned into
    [success = False]. *)
Definition copy (w : World) (source destination : string) : M bool :=
  fun st =>
    match run_checked w (cp_argv (MAX_THREADS_PER_DOWNLOAD st) source destination) st with
    | (Returned _, st') => (Returned true, st')
    | (Raised (CalledProcessError _ _), st') => (Returned false, st')
    | (Raised e, st') => (Raised e, st')
    end.

(** Where the bar stands when it is closed: the monitor of this
    download has run over the polls the world gave it. *)
Definition final_position (w : World) (total_size : Z) (destination : string) : Z :=
  Monitor.n (Monitor.bar
    (Monitor.update_progress (Monitor.tqdm total_size) (monitor_polls w destination))).

(** Lines 77-146 of [download_with_progress], as the main thread
    runs them once [total_size] is known. *)
Definition download_with_total (w : World) (source destination : string)
    (total : Z) : M bool :=
  log (BarCreate total ("Downloading " +:+ basename source)) ;;;
  log ThreadStart ;;;
  success <- copy w source destination ;;
  log SetComplete ;;;
  log (JoinThread 1000 (monitor_exited w destination)) ;;;
  log (BarClose (final_position w total destination)) ;;;
  ret success.

(** [download_with_progress(source, destination, total_size=None)] *)
Definition download_with_progress (w : World) (source destination : string)
    (total_size : option Z) : M bool :=
  total <- match total_size with
           | None => get_size_of_object w source
           | Some t => ret t
           end ;;
  download_with_total w source destination total.

(** What the main thread does after a copy process that ran. *)
Definition after_copy (w : World) (destination : string) (total : Z) (p : proc)
    : list event :=
  match p with
  | Exited _ _ =>
      [ SetComplete;
        JoinThread 1000 (monitor_exited w destination);
        BarClose (final_position w total destination) ]
  | NotFound => []
  end.

(** The events a computation adds to the trace. *)
Definition events_of {A} (c : M A) (st : State) : list event :=
  drop (length (trace st)) (trace (snd (c st))).

(** [if not os.path.exists(path): os.makedirs(path)], lines 163-164,
    332-333 and 438-439. *)
Definition makedirs_if_missing (w : World) (path : string) : M unit :=
  present <- exists_ path ;;
  if negb present then makedirs w path else ret tt.

(** The external tool keeps its word on [-n]: no file that exists
    when a command with that flag starts is changed by it. *)
Definition honours_no_clobber (w : World) : Prop :=
  forall argv files path content,
    "-n" ∈ argv ->
    files !! path = Some (File content) ->
    snd (subprocess_run w argv files) !! path = Some (File content).

(** The size probe does not touch the local files. *)
Definition probe_read_only (w : World) : Prop :=
  forall bucket_path files,
    snd (subprocess_run w (du_argv bucket_path) files) = files.

(** The command line of the listing, line 59. *)
Definition ls_argv (bucket_path : string) : list string :=
  ["gsutil"; "ls"; bucket_path].

End Gsutil.
Export Gsutil.

(* ===================================================================== *)
(** * [ThreadPoolExecutor.map] and [list(...)] of its results             *)
(* ===================================================================== *)

Module Pool.
Section Pool.

Context {A B St : Type}.

Local Open Scope nat_scope.

(** The task: it runs on the shared state and returns or raises. *)
Variable fn : A -> St -> result B * St.
(** [max_workers] *)
Variable max_workers : nat.
(** The iterable given to [map]. *)
Variable items : list A.

Inductive status : Type :=
| Collecting
| Done
| Failed (e : exn).

Record pool : Type := mkPool {
  pending : list nat;               (* the work queue, first in first out *)
  running : list nat;               (* tasks a worker has taken *)
  futures : gmap nat (result B);    (* finished futures *)
  started : list nat;               (* tasks in the order they were taken *)
  collected : list B;               (* what [list(...)] has so far *)
  phase : status;
  shared : St
}.

(** A task is named by its place in [items]. [map] submits every
    item before it yields anything. *)
Definition submit_all (s : St) : pool :=
  mkPool (seq 0 (length items)) [] ∅ [] [] Collecting s.

Inductive step : pool -> pool -> Prop :=
(* an idle worker takes the oldest pending task *)
| step_start p i q :
    pending p = i :: q ->
    (length (running p) < max_workers)%nat ->
    step p (mkPool q (running p ++ [i]) (futures p) (started p ++ [i])
                   (collected p) (phase p) (shared p))
(* a task runs to its end and its future is set *)
| step_finish p i a r1 r2 :
    running p = r1 ++ i :: r2 ->
    items !! i = Some a ->
    step p (mkPool (pending p) (r1 ++ r2)
                   (<[i := fst (fn a (shared p))]> (futures p)) (started p)
                   (collected p) (phase p) (snd (fn a (shared p))))
(* [list(...)] takes the next result, in submission order *)
| step_collect p b :
    phase p = Collecting ->
    futures p !! length (collected p) = Some (Returned b) ->
    step p (mkPool (pending p) (running p) (futures p) (started p)
                   (collected p ++ [b]) (phase p) (shared p))
(* the next result is an exception: it is raised again, and what is
   still pending is cancelled *)
| step_raise p e :
    phase p = Collecting ->
    futures p !! length (collected p) = Some (Raised e) ->
    step p (mkPool [] (running p) (futures p) (started p)
                   (collected p) (Failed e) (shared p))
| step_done p :
    phase p = Collecting ->
    length (collected p) = length items ->
    step p (mkPool (pending p) (running p) (futures p) (started p)
                   (collected p) Done (shared p)).

Inductive steps : pool -> pool -> Prop :=
| steps_refl p : steps p p
| steps_step p q r : steps p q -> step q r -> steps p r.

(** The [with] block is left: the result list is complete or the
    exception is on its way, and no worker has anything left. *)
Definition final (p : pool) : Prop :=
  phase p <> Collecting /\ pending p = [] /\ running p = [].

(** What is left to do; every step takes one off. *)
Definition measure (p : pool) : nat :=
  (2 * length (pending p) + length (running p)
   + match phase p with
     | Collecting => S (length items - length (collected p))
     | _ => 0
     end)%nat.

(** What holds of every state a pool can be in. *)
Record inv (p : pool) : Prop := mkInv {
  inv_started : started p = seq 0 (length (started p));
  inv_started_le : length (started p) <= length items;
  inv_pending :
    pending p = seq (length (started p)) (length items - length (started p))
    \/ (pending p = [] /\ exists e, phase p = Failed e);
  inv_running_nodup : NoDup (running p);
  inv_running :
    forall i, i ∈ running p -> i < length (started p) /\ futures p !! i = None;
  inv_width : length (running p) <= max_workers;
  inv_futures :
    forall i r, futures p !! i = Some r ->
      i < length (started p) /\ exists a s, items !! i = Some a /\ r = fst (fn a s);
  inv_taken :
    forall i, i < length (started p) -> i ∈ running p \/ is_Some (futures p !! i);
  inv_collected :
    forall j b, collected p !! j = Some b -> futures p !! j = Some (Returned b);
  inv_done : phase p = Done -> length (collected p) = length items
}.

(** One schedule every pool of at least one worker can follow: each
    task is taken, finished and collected before the next is taken. *)
Fixpoint serial (l : list A) (acc : list B) (s : St) : result (list B) * St :=
  match l with
  | [] => (Returned acc, s)
  | a :: rest =>
      match fn a s with
      | (Returned b, s') => serial rest (acc ++ [b]) s'
      | (Raised e, s') => (Raised e, s')
      end
  end.

Definition executor_map (s : St) : result (list B) * St := serial items [] s.

End Pool.
End Pool.

(* ===================================================================== *)
(** * The batch orchestrator                                              *)
(* ===================================================================== *)

Module Batch.

(** The closure [download_item] of [batch_download]. *)
Definition download_item (w : World) (destination : string) (is_folders : bool)
    (item : string) : M (string * bool) :=
  if is_folders then
    let folder_name := basename (rstrip_slash item) in
    let folder_dest := path_join destination folder_name in
    makedirs_if_missing w folder_dest ;;;
    success <- download_with_progress w item folder_dest None ;;
    ret (item, success)
  else
    let file_name := basename item in
    let file_dest := path_join destination file_name in
    success <- download_with_progress w item file_dest None ;;
    ret (item, success).

(** What folder mode promises about the events [new] of one folder
    transfer of [item] into [folder_dest], started on the files
    [files]: every process is the size probe or the copy into
    [folder_dest]; a copy is dispatched only when the directory was
    there at the start or has been made before; and a directory is
    made only if it was missing, and then it is [folder_dest]. *)
Definition folder_discipline (item folder_dest : string) (files : gmap string node)
    (thr : Z) (new : list event) : Prop :=
  (forall argv p, Run argv p ∈ new ->
     argv = du_argv item \/ argv = cp_argv thr item folder_dest)
  /\ (forall pre p post,
        new = pre ++ Run (cp_argv thr item folder_dest) p :: post ->
        is_Some (files !! folder_dest) \/ Makedirs folder_dest ∈ pre)
  /\ (forall path, Makedirs path ∈ new ->
        path = folder_dest /\ files !! folder_dest = None).

(** [[item for item, success in results if success]] *)
Definition successful (results : list (string * bool)) : list string :=
  (filter (fun r => snd r = true) results).*1.

(** [[item for item, success in results if not success]] *)
Definition failed (results : list (string * bool)) : list string :=
  (filter (fun r => snd r = false) results).*1.

Fixpoint print_failed (l : list string) : M unit :=
  match l with
  | [] => ret tt
  | item :: rest => print ("  - " +:+ item) ;;; print_failed rest
  end.

(** Lines 178-188. *)
Definition report (results : list (string * bool)) : M unit :=
  (if bool_decide (successful results = []) then ret tt
   else print ("Successfully downloaded "
               +:+ pretty (length (successful results)) +:+ " items")) ;;;
  (if bool_decide (failed results = []) then ret tt
   else print ("Failed to download "
               +:+ pretty (length (failed results)) +:+ " items:") ;;;
        print_failed (failed results)).

(** [batch_download(items, destination, is_folders, max_workers=None)].
    The pool is run on the serial schedule; [Pool.step] has all of
    them. A width below one is the [ValueError] of the executor's
    constructor. *)
Definition batch_download (w : World) (items : list string) (destination : string)
    (is_folders : bool) : M unit :=
  fun st =>
    let max_workers := MAX_PARALLEL_DOWNLOADS st in
    (print ("Starting download of " +:+ pretty (length items) +:+ " "
            +:+ (if is_folders then "folders" else "files") +:+ " in parallel") ;;;
     (if max_workers <=? 0 then raise ValueError else ret tt) ;;;
     results <- Pool.executor_map (download_item w destination is_folders) items ;;
     report results) st.

(** What [report] prints, in order. *)
Definition report_lines (results : list (string * bool)) : list event :=
  (match successful results with
   | [] => []
   | _ => [Say ("Successfully downloaded " +:+ pretty (length (successful results))
                +:+ " items")]
   end)
  ++ match failed results with
     | [] => []
     | _ => Say ("Failed to download " +:+ pretty (length (failed results)) +:+ " items:")
            :: map (fun item => Say ("  - " +:+ item)) (failed results)
     end.

End Batch.
Export Batch.

(* ===================================================================== *)
(** * The command-line and interactive front end                          *)
(* ===================================================================== *)

Module Frontend.

(** [check_package(package_name)] *)
Definition check_package (w : World) (package_name : string) : M bool :=
  if find_spec w package_name then ret true
  else
    print ("Package " +:+ package_name +:+ " not found. Installing...") ;;;
    fun st =>
      match run_checked w [executable w; "-m"; "pip"; "install"; package_name] st with
      | (Returned _, st') =>
          (Returned true, emit (Say ("Successfully installed " +:+ package_name)) st')
      | (Raised (CalledProcessError _ _), st') =>
          (Returned false, emit (Say ("Failed to install " +:+ package_name)) st')
      | (Raised e, st') => (Raised e, st')
      end.

Definition required_packages : list string := ["tqdm"].

(** Lines 20-24, run when the module is loaded. *)
Fixpoint check_required (l : list string) (w : World) : M unit :=
  match l with
  | [] => ret tt
  | package :: rest =>
      ok <- check_package w package ;;
      if ok then check_required rest w else raise (SystemExit 1)
  end.

(** [check_gsutil_installed()] *)
Definition check_gsutil_installed (w : World) : M bool :=
  fun st =>
    let not_installed st' :=
      (Returned false,
       emit (Say "Installation guide: https://cloud.google.com/sdk/docs/install")
         (emit (Say "Please install the Google Cloud SDK and ensure gsutil is working.")
            (emit (Say "Error: gsutil is not installed or not in your PATH.") st'))) in
    match run_checked w ["gsutil"; "version"] st with
    | (Returned out, st') =>
        match first_line out with
        | Some line => (Returned true, emit (Say ("Using " +:+ strip line)) st')
        | None => (Raised IndexError, st')
        end
    | (Raised (CalledProcessError _ _), st') => not_installed st'
    | (Raised FileNotFoundError, st') => not_installed st'
    | (Raised e, st') => (Raised e, st')
    end.

(** [open(path, 'r').read()] *)
Definition read_file (path : string) : M string :=
  fun st =>
    match fs st !! path with
    | Some (File content) => (Returned content, st)
    | Some Dir => (Raised (OSError "Is a directory"), st)
    | None => (Raised FileNotFoundError, st)
    end.

(** [optimize_gsutil_config()]: its [except Exception] takes every
    exception but [SystemExit]. *)
Definition optimize_gsutil_config (w : World) : M unit :=
  print "Applying gsutil performance optimizations..." ;;;
  fun st =>
    let body : M unit :=
      let boto_config := expanduser w "~/.boto" in
      present <- exists_ boto_config ;;
      has_optimizations <-
        (if present then
           content <- read_file boto_config ;;
           ret (contains "parallel_thread_count" content)
         else ret false) ;;
      if has_optimizations then ret tt
      else
        run_checked w
          [ "gsutil"; "config";
            "-o"; "GSUtil:parallel_thread_count=" +:+ pretty (MAX_THREADS_PER_DOWNLOAD st);
            "-o"; "GSUtil:parallel_process_count=1";
            "-o"; "GSUtil:sliced_object_download_threshold=64M";
            "-o"; "GSUtil:sliced_object_download_max_components=8";
            "-o"; "GSUtil:use_magicfile=False" ] ;;;
        print "Applied performance optimizations to gsutil configuration" in
    match body st with
    | (Returned u, st') => (Returned u, st')
    | (Raised (SystemExit c), st') => (Raised (SystemExit c), st')
    | (Raised e, st') =>
        (Returned tt,
         emit (Say "Downloads will still work but might not be at peak performance")
           (emit (SayExc "Note: Could not optimize gsutil config: " e) st'))
    end.

(** [get_default_destination()] *)
Definition get_default_destination (w : World) : M string :=
  let home_dir := expanduser w "~" in
  let desktop_dir := path_join home_dir "Desktop/Canva" in
  there <- isdir desktop_dir ;;
  if there then ret desktop_dir else ret home_dir.

(** [prompt_for_destination()]; [None] is Python's [None]. *)
Definition prompt_for_destination (w : World) : M (option string) :=
  default_dest <- get_default_destination w ;;
  typed <- input ("Enter destination directory [default: " +:+ default_dest +:+ "]: ") ;;
  let dest := expanduser w (if truthy typed then typed else default_dest) in
  present <- exists_ dest ;;
  if present then ret (Some dest)
  else
    fun st =>
      match makedirs w dest st with
      | (Returned _, st') => (Returned (Some dest), emit (Say ("Created directory: " +:+ dest)) st')
      | (Raised (OSError msg), st') =>
          (Returned None,
           emit (SayExc ("Error creating directory " +:+ dest +:+ ": ") (OSError msg)) st')
      | (Raised e, st') => (Raised e, st')
      end.

(** [[int(idx.strip()) - 1 for idx in fields]] *)
Fixpoint parse_indices (fields : list string) : result (list Z) :=
  match fields with
  | [] => Returned []
  | idx :: rest =>
      match Py.int (strip idx) with
      | Raised e => Raised e
      | Returned v =>
          match parse_indices rest with
          | Raised e => Raised e
          | Returned vs => Returned (v - 1 :: vs)
          end
      end
  end.

Definition in_range (idx : Z) (items : list string) : bool :=
  (0 <=? idx) && (idx <? Z.of_nat (length items)).

(** [[items[idx] for idx in indices if 0 <= idx < len(items)]] *)
Definition select (indices : list Z) (items : list string) : list string :=
  map (fun idx => nth (Z.to_nat idx) items EmptyString)
      (filter (fun idx => in_range idx items = true) indices).

Definition lift {A} (r : result A) : M A := fun st => (r, st).

(** A [try] whose only handler is [except ValueError]. *)
Definition except_ValueError (body handler : M unit) : M unit :=
  fun st =>
    match body st with
    | (Raised ValueError, st') => handler st'
    | other => other
    end.

Fixpoint print_listing (i : nat) (items : list string) : M unit :=
  match items with
  | [] => ret tt
  | item :: rest =>
      print (pretty i +:+ ". " +:+ item) ;;; print_listing (S i) rest
  end.

(** The two multiple-selection branches, lines 311-322 and 339-350. *)
Definition multiple (w : World) (items : list string) (destination : string)
    (is_folders : bool) : M unit :=
  let what := if is_folders then "folders" else "files" in
  typed <- input ("Enter the numbers of " +:+ what +:+ " to download (comma-separated): ") ;;
  except_ValueError
    (indices <- lift (parse_indices (split_on ","%char typed)) ;;
     let chosen := select indices items in
     match chosen with
     | [] => print ("No valid " +:+ what +:+ " selected.")
     | _ => batch_download w chosen destination is_folders
     end)
    (print "Invalid input. Please enter comma-separated numbers.").

(** The single-file branch, lines 300-309. *)
Definition single_file (w : World) (items : list string) (destination : string)
    : M unit :=
  typed <- input "Enter the number of the file to download: " ;;
  v <- lift (Py.int typed) ;;
  let file_index := v - 1 in
  if in_range file_index items then
    let file_path := nth (Z.to_nat file_index) items EmptyString in
    let file_name := basename file_path in
    let file_dest := path_join destination file_name in
    download_with_progress w file_path file_dest None ;;; ret tt
  else print "Invalid file selection.".

(** The single-folder branch, lines 324-337. *)
Definition single_folder (w : World) (items : list string) (destination : string)
    : M unit :=
  typed <- input "Enter the number of the folder to download: " ;;
  v <- lift (Py.int typed) ;;
  let folder_index := v - 1 in
  if in_range folder_index items then
    let folder_path := nth (Z.to_nat folder_index) items EmptyString in
    let folder_name := basename (rstrip_slash folder_path) in
    let folder_dest := path_join destination folder_name in
    makedirs_if_missing w folder_dest ;;;
    download_with_progress w folder_path folder_dest None ;;; ret tt
  else print "Invalid folder selection.".

(** Lines 296-359 of [interactive_download]: what is done with the
    choice once the destination has been asked for. *)
Definition dispatch (w : World) (bucket : string) (items : list string)
    (choice : string) (destination : option string) : M unit :=
  match destination with
  | None => ret tt
  | Some destination =>
      if negb (truthy destination) then ret tt
      else if String.eqb choice "1" then single_file w items destination
      else if String.eqb choice "2" then multiple w items destination false
      else if String.eqb choice "3" then single_folder w items destination
      else if String.eqb choice "4" then multiple w items destination true
      else if String.eqb choice "5" then
        print ("Downloading everything from " +:+ bucket +:+ " to " +:+ destination) ;;;
        download_with_progress w bucket destination None ;;; ret tt
      else
        print "Invalid choice. Please run the program again and select a valid option."
  end.

(** [interactive_download()] *)
Definition interactive_download (w : World) : M unit :=
  typed <- input "Enter the GCS bucket name (e.g., gs://your-bucket): " ;;
  let bucket := if startswith "gs://" typed then typed else "gs://" +:+ typed in
  print ("Listing contents of " +:+ bucket +:+ "...") ;;;
  items <- list_objects w bucket ;;
  match items with
  | [] => print "No items found in the bucket or bucket does not exist."
  | _ =>
      print (String "010"%char "Bucket contents:") ;;;
      print_listing 1 items ;;;
      print (String "010"%char "What would you like to download?") ;;;
      print "1. Single file" ;;;
      print "2. Multiple files" ;;;
      print "3. Single folder" ;;;
      print "4. Multiple folders" ;;;
      print "5. Everything in this bucket" ;;;
      choice <- input "Enter your choice (1-5): " ;;
      destination <- prompt_for_destination w ;;
      dispatch w bucket items choice destination
  end.

(** What [parser.parse_args()] returns, and [len(sys.argv)]. *)
Record Args : Type := mkArgs {
  bucket : option string;
  destination : option string;
  file : option string;
  folder : option string;
  interactive : bool;
  max_parallel : Z;
  threads : Z;
  argc : nat
}.

Definition report_download (what : string) (success : bool) : M unit :=
  if success then print ("Successfully downloaded " +:+ what)
  else print ("Failed to download " +:+ what).

(** Lines 395-405 of [main]: the destination directory, made if it
    is missing, or [sys.exit(1)]. *)
Definition resolve_destination (w : World) (args : Args) : M string :=
  chosen <- match destination args with
            | Some d => if truthy d then ret d else get_default_destination w
            | None => get_default_destination w
            end ;;
  let destination := expanduser w chosen in
  present <- exists_ destination ;;
  (if present then ret tt
   else fun st =>
     match makedirs w destination st with
     | (Returned _, st') =>
         (Returned tt, emit (Say ("Created directory: " +:+ destination)) st')
     | (Raised (OSError msg), st') =>
         (Raised (SystemExit 1),
          emit (SayExc "Error creating destination directory: " (OSError msg)) st')
     | (Raised e, st') => (Raised e, st')
     end) ;;;
  ret destination.

(** Lines 407-416: the bucket argument with its prefix, or
    [sys.exit(1)]. *)
Definition require_bucket (args : Args) : M string :=
  match bucket args with
  | None | Some EmptyString =>
      print "Error: Bucket path is required unless using interactive mode." ;;;
      log SayHelp ;;;
      raise (SystemExit 1)
  | Some given =>
      ret (if startswith "gs://" given then given else "gs://" +:+ given)
  end.

(** Lines 418-457: one file, one folder or the whole bucket. *)
Definition cli_transfer (w : World) (args : Args) (bucket destination : string)
    : M unit :=
  if truthy_opt (file args) then
    let name := default EmptyString (file args) in
    let file_path := bucket +:+ "/" +:+ name in
    let file_name := basename name in
    let file_dest := path_join destination file_name in
    print ("Downloading file " +:+ file_path +:+ " to " +:+ file_dest) ;;;
    success <- download_with_progress w file_path file_dest None ;;
    report_download file_path success
  else if truthy_opt (folder args) then
    let name := default EmptyString (folder args) in
    let folder_path := bucket +:+ "/" +:+ name in
    let folder_name := basename (rstrip_slash name) in
    let folder_dest := path_join destination folder_name in
    makedirs_if_missing w folder_dest ;;;
    print ("Downloading folder " +:+ folder_path +:+ " to " +:+ folder_dest) ;;;
    success <- download_with_progress w folder_path folder_dest None ;;
    report_download folder_path success
  else
    print ("Downloading entire bucket " +:+ bucket +:+ " to " +:+ destination) ;;;
    success <- download_with_progress w bucket destination None ;;
    report_download bucket success.

(** Lines 395-457: [main] when it is not interactive. *)
Definition cli_download (w : World) (args : Args) : M unit :=
  destination <- resolve_destination w args ;;
  bucket <- require_bucket args ;;
  cli_transfer w args bucket destination.

Definition is_interactive (args : Args) : bool :=
  interactive args || (argc args =? 1)%nat.

(** [main()] after the arguments are parsed. *)
Definition main (w : World) (args : Args) : M unit :=
  (fun st => (Returned tt, set_globals (max_parallel args) (threads args) st)) ;;;
  installed <- check_gsutil_installed w ;;
  if negb installed then raise (SystemExit 1)
  else
    optimize_gsutil_config w ;;;
    if is_interactive args then interactive_download w
    else cli_download w args.

(** The state once a prompt has been answered. *)
Definition asked (prompt : string) (rest : list string) (st : State) : State :=
  emit (Ask prompt) (set_stdin rest st).

(** What [get_default_destination()] returns on these files. *)
Definition default_destination (w : World) (files : gmap string node) : string :=
  match files !! path_join (expanduser w "~") "Desktop/Canva" with
  | Some Dir => path_join (expanduser w "~") "Desktop/Canva"
  | _ => expanduser w "~"
  end.

(** The directory [main] settles on, lines 396-397. *)
Definition chosen_destination (w : World) (args : Args) (files : gmap string node)
    : string :=
  expanduser w
    (match destination args with
     | Some d => if truthy d then d else default_destination w files
     | None => default_destination w files
     end).

(** The state in which [main] goes on after a successful tool check
    and the configuration step. *)
Definition ready (w : World) (args : Args) (st : State) : State :=
  snd (optimize_gsutil_config w
         (snd (check_gsutil_installed w
                 (set_globals (max_parallel args) (threads args) st)))).

(** The script from its first line: the package check, then [main]. *)
Definition script (w : World) (args : Args) : M unit :=
  check_required required_packages w ;;;
  main w args.

(** The exit status of the interpreter: [0] when the script runs to
    its end, the argument of [sys.exit], and [1] after a traceback. *)
Definition exit_code {A} (r : result A) : Z :=
  match r with
  | Returned _ => 0
  | Raised (SystemExit code) => code
  | Raised _ => 1
  end.

Definition run_script (w : World) (args : Args) (st : State) : Z :=
  exit_code (fst (script w args st)).

(** The command line of the installation, line 12. *)
Definition pip_argv (w : World) (package_name : string) : list string :=
  [executable w; "-m"; "pip"; "install"; package_name].

(** [~/.boto] is a file that mentions [parallel_thread_count]. *)
Definition boto_configured (w : World) (files : gmap string node) : bool :=
  match files !! expanduser w "~/.boto" with
  | Some (File content) => contains "parallel_thread_count" content
  | _ => false
  end.

End Frontend.
Export Frontend.

(* ===================================================================== *)
(** * A small concrete world, for running the program                     *)
(* ===================================================================== *)

Module Demo.

(** The last two words of a copy command and whether [-n] is
    given. *)
Definition cp_parse (argv : list string) : option (bool * string * string) :=
  match rev argv with
  | dst :: src :: others =>
      if bool_decide ("cp" ∈ others)
      then Some (bool_decide ("-n" ∈ argv), src, dst)
      else None
  | _ => None
  end.

(** A copy that exits with [code]: on success it writes one file, at
    [dst] or inside it, and with [-n] it leaves a file that is
    already there alone. *)
Definition cp_effect (noclobber : bool) (code : Z) (src dst : string)
    (files : gmap string node) : gmap string node :=
  if code =? 0 then
    let target :=
      match files !! dst with
      | Some Dir => path_join dst (basename src)
      | _ => dst
      end in
    match files !! target with
    | Some _ => if noclobber then files else <[target := File ("data of " +:+ src)]> files
    | None => <[target := File ("data of " +:+ src)]> files
    end
  else files.

Definition listing : string :=
  "gs://b/a.txt" +:+ String "010"%char ("gs://b/dir/" +:+ String "010"%char "").

(** [gsutil], given what [version] and the size probe answer and the
    exit status of the copy of each source. *)
Definition tool (version : proc) (du : string -> proc) (cp_code : string -> Z)
    (pip_code : Z)
    (argv : list string) (files : gmap string node) : proc * gmap string node :=
  if bool_decide (argv = ["gsutil"; "version"]) then (version, files)
  else if bool_decide (take 3 (drop 1 argv) = ["-m"; "pip"; "install"])
  then (Exited pip_code "", files)
  else if bool_decide (take 2 argv = ["gsutil"; "ls"]) then (Exited 0 listing, files)
  else if bool_decide (take 4 argv = ["gsutil"; "-q"; "du"; "-s"])
  then (du (List.last argv EmptyString), files)
  else
    match cp_parse argv with
    | Some (noclobber, src, dst) =>
        (Exited (cp_code src) "", cp_effect noclobber (cp_code src) src dst files)
    | None => (Exited 0 "", files)
    end.

Definition polls (destination : string) : list Monitor.snapshot :=
  [Monitor.Absent; Monitor.IsFile (Some 4); Monitor.IsFile None; Monitor.IsFile (Some 12)].

Definition world (version : proc) (du : string -> proc) (cp_code : string -> Z)
    (mk_err : string -> option string) (have_tqdm : bool) (pip_code : Z) : World :=
  {| subprocess_run := tool version du cp_code pip_code;
     makedirs_error := mk_err;
     home := "/home/u";
     pw_dir := fun _ => None;
     find_spec := fun _ => have_tqdm;
     executable := "/usr/bin/python3";
     monitor_polls := polls;
     monitor_exited := fun _ => true |}.

Definition version_ok : proc := Exited 0 "gsutil version: 5.27".
Definition du_ok (path : string) : proc := Exited 0 ("12  " +:+ path).
Definition du_fails (path : string) : proc := Exited 1 "".
Definition cp_ok (src : string) : Z := 0.
Definition cp_fails_on (bad : string) (src : string) : Z :=
  if String.eqb src bad then 1 else 0.
Definition mk_ok (path : string) : option string := None.
Definition mk_denied (path : string) : option string := Some "Permission denied".

(** Everything works. *)
Definition good : World := world version_ok du_ok cp_ok mk_ok true 0.

(** The copy of [gs://b/bad] fails, everything else works. *)
Definition one_bad : World :=
  world version_ok du_ok (cp_fails_on "gs://b/bad") mk_ok true 0.

(** The size probe fails. *)
Definition no_size : World := world version_ok du_fails cp_ok mk_ok true 0.

(** No directory can be made. *)
Definition read_only : World := world version_ok du_ok cp_ok mk_denied true 0.

(** [gsutil] is not installed. *)
Definition no_tool : World := world NotFound du_ok cp_ok mk_ok true 0.

(** [tqdm] is missing and [pip] cannot install it. *)
Definition no_tqdm : World := world version_ok du_ok cp_ok mk_ok false 1.

Definition home_only : gmap string node := {[ "/home/u" := Dir ]}.

(** A home directory in which [a.txt] is already there. *)
Definition home_with_file : gmap string node :=
  {[ "/home/u" := Dir; "/home/u/a.txt" := File "old" ]}.

Definition batch_items : list string := ["gs://b/a.txt"; "gs://b/bad"; "gs://b/c.txt"].

Definition listed : list string := ["gs://b/a.txt"; "gs://b/dir/"].

(** No argument at all: interactive mode. *)
Definition args_none : Args :=
  {| bucket := None; destination := None; file := None; folder := None;
     interactive := false; max_parallel := 16; threads := 8; argc := 1 |}.

(** [--bucket b] *)
Definition args_bucket : Args :=
  {| bucket := Some "b"; destination := None; file := None; folder := None;
     interactive := false; max_parallel := 16; threads := 8; argc := 3 |}.

(** [--bucket b --destination /x] *)
Definition args_bucket_to_x : Args :=
  {| bucket := Some "b"; destination := Some "/x"; file := None; folder := None;
     interactive := false; max_parallel := 16; threads := 8; argc := 5 |}.

End Demo.

Module DemoMore.
(** Every process exits with status 1 and prints nothing. *)
Definition failing_tool (argv : list string) (files : gmap string node)
    : proc * gmap string node :=
  (Exited 1 EmptyString, files).

Definition broken : World :=
  {| subprocess_run := failing_tool;
     makedirs_error := Demo.mk_ok;
     home := "/home/u";
     pw_dir := fun _ => None;
     find_spec := fun _ => false;
     executable := "/usr/bin/python3";
     monitor_polls := Demo.polls;
     monitor_exited := fun _ => true |}.

(** The size probe exits with status zero and prints a blank line. *)
Definition blank_size : World :=
  Demo.world Demo.version_ok (fun _ => Exited 0 " ") Demo.cp_ok Demo.mk_ok true 0.

(** [--bucket b --file docs/a.txt --folder dir/] *)
Definition args_file_and_folder : Args :=
  {| bucket := Some "b"; destination := None; file := Some "docs/a.txt";
     folder := Some "dir/"; interactive := false; max_parallel := 16; threads := 8;
     argc := 7 |}.
End DemoMore.

Module PyTests.
Example int_ok : Py.int " 42 " = Returned 42. Proof. reflexivity. Qed.
Example int_neg : Py.int "-7" = Returned (-7). Proof. reflexivity. Qed.
Example int_us : Py.int "1_000" = Returned 1000. Proof. reflexivity. Qed.
Example int_bad : Py.int "abc" = Raised ValueError. Proof. reflexivity. Qed.
Example int_bad2 : Py.int "1__0" = Raised ValueError. Proof. reflexivity. Qed.
Example int_bad3 : Py.int "" = Raised ValueError. Proof. reflexivity. Qed.
Example split1 : split_on ","%char "1, 2,,x" = ["1"; " 2"; ""; "x"]. Proof. reflexivity. Qed.
Example split2 : split_on ","%char "" = [""]. Proof. reflexivity. Qed.
Example ws1 : split_ws "  12  gs://b/x
" = ["12"; "gs://b/x"]. Proof. reflexivity. Qed.
Example base1 : basename "gs://b/dir" = "dir". Proof. reflexivity. Qed.
Example base2 : basename "gs://b/dir/" = "". Proof. reflexivity. Qed.
Example base3 : basename "a.txt" = "a.txt". Proof. reflexivity. Qed.
Example rs1 : rstrip_slash "gs://b/dir//" = "gs://b/dir". Proof. reflexivity. Qed.
Example rs2 : rstrip_slash "///" = "". Proof. reflexivity. Qed.
Example rs3 : rstrip_slash "a/b" = "a/b". Proof. reflexivity. Qed.
Example j1 : path_join "/d" "x" = "/d/x". Proof. reflexivity. Qed.
Example j2 : path_join "/d/" "x" = "/d/x". Proof. reflexivity. Qed.
Example j3 : path_join "/d" "/x" = "/x". Proof. reflexivity. Qed.
Example j4 : path_join "" "x" = "x". Proof. reflexivity. Qed.
Example c1 : contains "bc" "abcd" = true. Proof. reflexivity. Qed.
Example c2 : contains "bd" "abcd" = false. Proof. reflexivity. Qed.
Example fl : first_line "gsutil version: 5.2
x" = Some "gsutil version: 5.2". Proof. reflexivity. Qed.
End PyTests.

(* ===================================================================== *)
(** * Properties of the progress monitor                                  *)
(* ===================================================================== *)

Section MonitorFacts.
Import Monitor.

Lemma poll_position_le (o : option Z) (st : loop_state) :
  n (bar st) <= n (bar (poll o st)).
Proof.
  destruct o as [cur|]; simpl; [|lia].
  destruct (cur >? previous_size st) eqn:E; simpl; lia.
Qed.

Lemma poll_drop_ignored (cur : Z) (st : loop_state) :
  cur <= previous_size st -> poll (Some cur) st = st.
Proof.
  intros H. simpl. destruct (cur >? previous_size st) eqn:E; [lia | reflexivity].
Qed.

Lemma positions_nondecreasing (obs : list (option Z)) (st : loop_state) :
  nondecreasing (n (bar st) :: positions obs st).
Proof.
  revert st. induction obs as [|o rest IH]; intros st; simpl.
  - split; exact I.
  - split; [apply poll_position_le | apply IH].
Qed.

Lemma last_cons_default (l : list Z) (x d : Z) :
  List.last (x :: l) d = List.last l x.
Proof.
  revert x d. induction l as [|y l IH]; intros x d; [reflexivity|].
  change (List.last (x :: y :: l) d) with (List.last (y :: l) d).
  rewrite (IH y d), (IH y x). reflexivity.
Qed.

Lemma samples_cons_some (cur : Z) (rest : list (option Z)) :
  samples (Some cur :: rest) = cur :: samples rest.
Proof. reflexivity. Qed.

Lemma samples_cons_none (rest : list (option Z)) :
  samples (None :: rest) = samples rest.
Proof. reflexivity. Qed.

(** On samples that never fall below the previous one, the loop keeps
    [previous_size] at the last sample and the bar at its start plus
    what was gained since. *)
Lemma run_polls_nondecreasing (obs : list (option Z)) (st : loop_state) :
  nondecreasing (previous_size st :: samples obs) ->
  previous_size (run_polls obs st) = List.last (samples obs) (previous_size st)
  /\ n (bar (run_polls obs st))
     = n (bar st) + (List.last (samples obs) (previous_size st) - previous_size st)
  /\ advances obs st = deltas (previous_size st) obs.
Proof.
  revert st. induction obs as [|[cur|] rest IH]; intros st Hnd.
  - simpl. repeat split; lia.
  - rewrite samples_cons_some in *. destruct Hnd as [Hle Hnd].
    rewrite (last_cons_default (samples rest) cur (previous_size st)).
    change (run_polls (Some cur :: rest) st) with (run_polls rest (poll (Some cur) st)).
    change (advances (Some cur :: rest) st)
      with ((n (bar (poll (Some cur) st)) - n (bar st))
            :: advances rest (poll (Some cur) st)).
    change (deltas (previous_size st) (Some cur :: rest))
      with ((cur - previous_size st) :: deltas cur rest).
    destruct (Z.eq_dec cur (previous_size st)) as [Heq|Hne].
    + rewrite poll_drop_ignored by lia.
      destruct (IH st) as (H1 & H2 & H3).
      { rewrite <- Heq. exact Hnd. }
      rewrite H1, H2, H3, <- Heq. repeat split; try lia.
      f_equal. lia.
    + assert (Hp : poll (Some cur) st
                   = {| previous_size := cur;
                        bar := update (cur - previous_size st) (bar st) |}).
      { simpl. destruct (cur >? previous_size st) eqn:E; [reflexivity | lia]. }
      rewrite Hp.
      destruct (IH {| previous_size := cur;
                      bar := update (cur - previous_size st) (bar st) |})
        as (H1 & H2 & H3); [exact Hnd|].
      simpl in H1, H2, H3. rewrite H1, H2, H3. simpl.
      repeat split; try lia. f_equal. lia.
  - rewrite samples_cons_none in *.
    change (run_polls (None :: rest) st) with (run_polls rest st).
    destruct (IH st Hnd) as (H1 & H2 & H3).
    repeat split; try assumption.
    simpl. rewrite H3. f_equal. lia.
Qed.

End MonitorFacts.

(** C1 (as amended). On every run whose measured sizes are non-negative
    and never decrease, the bar advances in total by the last measured
    size: the loop starts its accounting at zero, so the first
    successful poll adds the whole first size and the later ones add
    [final_size - initial_size]. Every poll passes to the bar exactly
    the difference to the sample before it, and nothing when the
    measurement failed. *)
Theorem monitor_advancement_from_zero
    (b : Monitor.ProgressBar) (obs : list (option Z)) :
  Monitor.nondecreasing (Monitor.samples obs) ->
  Forall (fun s => 0 <= s) (Monitor.samples obs) ->
  Monitor.advancement b obs = List.last (Monitor.samples obs) 0
  /\ Monitor.advancement b obs
     = (List.last (Monitor.samples obs) 0 - hd 0 (Monitor.samples obs))
       + hd 0 (Monitor.samples obs)
  /\ Monitor.advances obs (Monitor.loop_init b) = Monitor.deltas 0 obs.
Proof.
  intros Hnd Hpos.
  assert (Hnd0 : Monitor.nondecreasing (0 :: Monitor.samples obs)).
  { simpl. split; [|exact Hnd].
    destruct (Monitor.samples obs) as [|x l]; [exact I|].
    inversion Hpos; subst. assumption. }
  destruct (run_polls_nondecreasing obs (Monitor.loop_init b) Hnd0) as (_ & H2 & H3).
  unfold Monitor.advancement. simpl in H2, H3. rewrite H2.
  repeat split; [lia | lia | exact H3].
Qed.

Lemma monitor_advancement_from_zero_witness :
  Monitor.advancement (Monitor.tqdm 100) [Some 5; None; Some 5; Some 12] = 12
  /\ Monitor.advances [Some 5; None; Some 5; Some 12]
       (Monitor.loop_init (Monitor.tqdm 100)) = [5; 0; 0; 7].
Proof.
  destruct (monitor_advancement_from_zero (Monitor.tqdm 100)
              [Some 5; None; Some 5; Some 12]) as (H1 & _ & H3).
  - simpl. lia.
  - repeat constructor; lia.
  - split; [exact H1 | exact H3].
Defined.

(** C1 as it is written fails: with the destination already holding 5
    bytes at the first poll and 7 at the second, the sizes never
    decrease, and the bar advances by 7, not by [7 - 5]. *)
Lemma monitor_advancement_counterexample :
  ~ (forall (b : Monitor.ProgressBar) (obs : list (option Z)),
       Monitor.nondecreasing (Monitor.samples obs) ->
       Monitor.advancement b obs
       = List.last (Monitor.samples obs) 0 - hd 0 (Monitor.samples obs)).
Proof.
  intros H.
  specialize (H (Monitor.tqdm 0) [Some 5; Some 7]).
  assert (Hnd : Monitor.nondecreasing (Monitor.samples [Some 5; Some 7])).
  { simpl. lia. }
  specialize (H Hnd). vm_compute in H. discriminate H.
Qed.

(** C3. Whatever the polls measure, failed measurements and drops
    included, the bar never moves back: its position after each poll is
    at least its position before, a size that is not above
    [previous_size] leaves the loop state untouched, and no poll passes
    a negative amount to the bar. *)
Theorem monitor_never_decrements
    (obs : list (option Z)) (st : Monitor.loop_state) :
  Monitor.nondecreasing (Monitor.n (Monitor.bar st) :: Monitor.positions obs st)
  /\ (forall cur, cur <= Monitor.previous_size st -> Monitor.poll (Some cur) st = st)
  /\ Forall (fun d => 0 <= d) (Monitor.advances obs st)
  /\ Monitor.n (Monitor.bar st) <= Monitor.n (Monitor.bar (Monitor.run_polls obs st)).
Proof.
  split; [|split; [|split]].
  - apply positions_nondecreasing.
  - intros cur H. apply poll_drop_ignored. exact H.
  - revert st. induction obs as [|o rest IH]; intros st; simpl; constructor.
    + pose proof (poll_position_le o st). lia.
    + apply IH.
  - revert st. induction obs as [|o rest IH]; intros st; simpl; [lia|].
    pose proof (poll_position_le o st). specialize (IH (Monitor.poll o st)). lia.
Qed.

(* ===================================================================== *)
(** * Properties of the adapter and of the single-item downloader         *)
(* ===================================================================== *)

Section DownloadFacts.

Variable w : World.

Lemma run_checked_run (argv : list string) (st : State) :
  run_checked w argv st
  = (match fst (subprocess_run w argv (fs st)) with
     | NotFound => Raised FileNotFoundError
     | Exited code out =>
         if code =? 0 then Returned out else Raised (CalledProcessError code argv)
     end,
     emit (Run argv (fst (subprocess_run w argv (fs st))))
          (set_fs (snd (subprocess_run w argv (fs st))) st)).
Proof.
  unfold run_checked.
  destruct (subprocess_run w argv (fs st)) as [[|code out] files]; simpl;
    [reflexivity|].
  destruct (code =? 0); reflexivity.
Qed.

Lemma get_size_of_object_run (bucket_path : string) (st : State) :
  get_size_of_object w bucket_path st
  = (match fst (subprocess_run w (du_argv bucket_path) (fs st)) with
     | NotFound => Raised FileNotFoundError
     | Exited code out => if code =? 0 then parse_size out else Returned 0
     end,
     emit (Run (du_argv bucket_path)
               (fst (subprocess_run w (du_argv bucket_path) (fs st))))
          (set_fs (snd (subprocess_run w (du_argv bucket_path) (fs st))) st)).
Proof.
  unfold get_size_of_object. rewrite run_checked_run.
  destruct (fst (subprocess_run w (du_argv bucket_path) (fs st))) as [|code out];
    [reflexivity|].
  destruct (code =? 0); reflexivity.
Qed.

Lemma copy_run (source destination : string) (st : State) :
  let argv := cp_argv (MAX_THREADS_PER_DOWNLOAD st) source destination in
  copy w source destination st
  = (match fst (subprocess_run w argv (fs st)) with
     | NotFound => Raised FileNotFoundError
     | Exited code _ => Returned (code =? 0)
     end,
     emit (Run argv (fst (subprocess_run w argv (fs st))))
          (set_fs (snd (subprocess_run w argv (fs st))) st)).
Proof.
  intros argv. unfold copy. fold argv. rewrite run_checked_run.
  destruct (fst (subprocess_run w argv (fs st))) as [|code out]; [reflexivity|].
  destruct (code =? 0); reflexivity.
Qed.

(** The whole of lines 77-146 in one equation. *)
Lemma download_with_total_run (source destination : string) (total : Z) (st : State) :
  let argv := cp_argv (MAX_THREADS_PER_DOWNLOAD st) source destination in
  let p := fst (subprocess_run w argv (fs st)) in
  download_with_total w source destination total st
  = (match p with
     | NotFound => Raised FileNotFoundError
     | Exited code _ => Returned (code =? 0)
     end,
     mkState (snd (subprocess_run w argv (fs st))) (stdin st)
             (trace st
              ++ [BarCreate total ("Downloading " +:+ basename source);
                  ThreadStart; Run argv p]
              ++ after_copy w destination total p)
             (MAX_PARALLEL_DOWNLOADS st) (MAX_THREADS_PER_DOWNLOAD st)).
Proof.
  intros argv p. unfold download_with_total, bind, log.
  rewrite copy_run. simpl. fold argv. fold p.
  destruct p as [|code out]; unfold emit, set_fs; simpl;
    rewrite <- ?app_assoc; reflexivity.
Qed.

Lemma download_with_progress_some (source destination : string) (t : Z) (st : State) :
  download_with_progress w source destination (Some t) st
  = download_with_total w source destination t st.
Proof. reflexivity. Qed.

Lemma download_with_progress_none (source destination : string) (st : State) :
  download_with_progress w source destination None st
  = match get_size_of_object w source st with
    | (Returned total, st') => download_with_total w source destination total st'
    | (Raised e, st') => (Raised e, st')
    end.
Proof. reflexivity. Qed.

End DownloadFacts.

Section DownloadOrder.

Variable w : World.

Lemma events_of_app {A} (c : M A) (st : State) (l : list event) :
  trace (snd (c st)) = trace st ++ l -> events_of c st = l.
Proof. intros H. unfold events_of. rewrite H. apply drop_app_length. Qed.

(** The events of one [download_with_progress], spelled out. *)
Lemma download_with_progress_events (source destination : string)
    (total_size : option Z) (st : State) :
  let argv := cp_argv (MAX_THREADS_PER_DOWNLOAD st) source destination in
  let out := download_with_progress w source destination total_size st in
  let new := events_of (download_with_progress w source destination total_size) st in
  (exists e probe, fst out = Raised e /\ new = probe
                   /\ forall ev, ev ∈ probe -> exists p, ev = Run (du_argv source) p)
  \/ (exists probe total p,
        new = probe
              ++ [BarCreate total ("Downloading " +:+ basename source);
                  ThreadStart; Run argv p]
              ++ after_copy w destination total p
        /\ (forall ev, ev ∈ probe -> exists p, ev = Run (du_argv source) p)
        /\ fst out = match p with
                     | NotFound => Raised FileNotFoundError
                     | Exited code _ => Returned (code =? 0)
                     end).
Proof.
  intros argv out new. subst out new.
  destruct total_size as [t|].
  - right. exists [], t, (fst (subprocess_run w argv (fs st))).
    split; [|split].
    + apply events_of_app. rewrite download_with_progress_some.
      rewrite download_with_total_run. reflexivity.
    + intros ev Hev. inversion Hev.
    + rewrite download_with_progress_some, download_with_total_run. reflexivity.
  - pose (pr := subprocess_run w (du_argv source) (fs st)).
    assert (Hprobe : forall ev, ev ∈ [Run (du_argv source) (fst pr)] ->
              exists p, ev = Run (du_argv source) p).
    { intros ev Hev. apply list_elem_of_singleton in Hev. eauto. }
    destruct (fst (get_size_of_object w source st)) as [total|e] eqn:Hsz.
    + right.
      exists [Run (du_argv source) (fst pr)], total.
      rewrite get_size_of_object_run in Hsz. simpl in Hsz.
      eexists. split; [|split; [exact Hprobe|]].
      * apply events_of_app. rewrite download_with_progress_none.
        rewrite get_size_of_object_run. rewrite Hsz.
        rewrite download_with_total_run. simpl. rewrite <- app_assoc. reflexivity.
      * rewrite download_with_progress_none, get_size_of_object_run.
        rewrite Hsz. rewrite download_with_total_run. reflexivity.
    + left. exists e, [Run (du_argv source) (fst pr)].
      rewrite get_size_of_object_run in Hsz. simpl in Hsz.
      split; [|split; [|exact Hprobe]].
      * rewrite download_with_progress_none, get_size_of_object_run.
        rewrite Hsz. reflexivity.
      * apply events_of_app. rewrite download_with_progress_none.
        rewrite get_size_of_object_run. rewrite Hsz. reflexivity.
Qed.

End DownloadOrder.

Section DownloadTheorems.

Variable w : World.

Lemma split_at_unique {A} (x : A) (l1 l2 pre post : list A) :
  x ∉ l1 -> x ∉ l2 -> l1 ++ x :: l2 = pre ++ x :: post -> pre = l1 /\ post = l2.
Proof.
  revert pre. induction l1 as [|a l1 IH]; intros pre H1 H2 Heq.
  - destruct pre as [|y pre]; simpl in Heq.
    + injection Heq as ->. split; reflexivity.
    + injection Heq as -> ->. exfalso. apply H2.
      apply elem_of_app. right. left.
  - destruct pre as [|y pre]; simpl in Heq.
    + injection Heq as -> _. exfalso. apply H1. left.
    + injection Heq as -> Heq.
      destruct (IH pre) as [-> ->]; [|exact H2|exact Heq|split; reflexivity].
      intros Hin. apply H1. right. exact Hin.
Qed.

Lemma cp_argv_not_du (thr : Z) (source destination path : string) :
  cp_argv thr source destination <> du_argv path.
Proof. unfold cp_argv, du_argv. intros H. discriminate H. Qed.

Lemma cp_run_not_du (thr : Z) (source destination path : string) (p q : proc) :
  Run (cp_argv thr source destination) p <> Run (du_argv path) q.
Proof.
  intros H. apply (cp_argv_not_du thr source destination path).
  generalize dependent (cp_argv thr source destination).
  generalize dependent (du_argv path).
  intros a b H. injection H as -> _. reflexivity.
Qed.

(** C5. In every invocation of [download_with_progress]: the stop
    signal is set only after the copy process has exited (whatever
    its status), what follows the signal is one join with a timeout
    of one second and then the closing of the bar, whether or not
    the monitor thread had exited by then; once the copy process has
    exited the function returns, and what it returns is [True]
    exactly when the exit status is zero. *)
Theorem copy_completion_precedes_stop_signal
    (source destination : string) (total_size : option Z) (st : State) :
  let argv := cp_argv (MAX_THREADS_PER_DOWNLOAD st) source destination in
  let out := download_with_progress w source destination total_size st in
  let new := events_of (download_with_progress w source destination total_size) st in
  (forall pre post, new = pre ++ SetComplete :: post ->
     (exists code o, Run argv (Exited code o) ∈ pre)
     /\ exists position,
          post = [JoinThread 1000 (monitor_exited w destination); BarClose position])
  /\ (forall code o, Run argv (Exited code o) ∈ new ->
        fst out = Returned (code =? 0) /\ SetComplete ∈ new)
  /\ (forall b, fst out = Returned b ->
        exists code o, Run argv (Exited code o) ∈ new /\ b = (code =? 0)).
Proof.
  intros argv out new.
  destruct (download_with_progress_events w source destination total_size st)
    as [(e & probe & Hres & Hnew & Hprobe)
       |(probe & total & p & Hnew & Hprobe & Hres)];
    fold out in Hres; fold new in Hnew; fold argv in Hnew.
  - (* the size probe raised: no copy, no signal *)
    split; [|split].
    + intros pre post Heq. exfalso.
      destruct (Hprobe SetComplete) as [p Hp]; [|discriminate Hp].
      rewrite <- Hnew, Heq. apply elem_of_app. right. left.
    + intros code o Hin. exfalso.
      rewrite Hnew in Hin. destruct (Hprobe _ Hin) as [p Hp].
      exact (cp_run_not_du _ _ _ _ _ _ Hp).
    + intros b Hb. rewrite Hres in Hb. discriminate Hb.
  - assert (Hnoset : SetComplete ∉
              probe ++ [BarCreate total ("Downloading " +:+ basename source);
                        ThreadStart; Run argv p]).
    { intros Hin. apply elem_of_app in Hin as [Hin|Hin].
      - destruct (Hprobe _ Hin) as [q Hq]. discriminate Hq.
      - repeat (apply elem_of_cons in Hin as [Hin|Hin]; [discriminate Hin|]).
        inversion Hin. }
    assert (Hnocp : forall code o, Run argv (Exited code o) ∉ probe).
    { intros code o Hin. destruct (Hprobe _ Hin) as [q Hq].
      exact (cp_run_not_du _ _ _ _ _ _ Hq). }
    destruct p as [|code o]; simpl in Hnew, Hres.
    + (* the executable was not found: the call raises *)
      split; [|split].
      * intros pre post Heq. exfalso. apply Hnoset.
        rewrite <- Hnew, Heq. apply elem_of_app. right. left.
      * intros code o Hin. exfalso. rewrite Hnew in Hin.
        apply elem_of_app in Hin as [Hin|Hin]; [exact (Hnocp _ _ Hin)|].
        repeat (apply elem_of_cons in Hin as [Hin|Hin]; [discriminate Hin|]).
        inversion Hin.
      * intros b Hb. rewrite Hres in Hb. discriminate Hb.
    + (* the copy process ran and exited with [code] *)
      assert (Hin : Run argv (Exited code o) ∈ new).
      { rewrite Hnew. apply elem_of_app. right.
        right. right. left. }
      split; [|split].
      * intros pre post Heq.
        rewrite Hnew in Heq.
        assert (Heq' :
          (probe ++ [BarCreate total ("Downloading " +:+ basename source);
                     ThreadStart; Run argv (Exited code o)])
          ++ SetComplete
             :: [JoinThread 1000 (monitor_exited w destination);
                 BarClose (final_position w total destination)]
          = pre ++ SetComplete :: post).
        { rewrite <- app_assoc. exact Heq. }
        apply split_at_unique in Heq' as [-> ->].
        -- split.
           ++ exists code, o. apply elem_of_app. right. right. right. left.
           ++ eexists. reflexivity.
        -- exact Hnoset.
        -- intros H. repeat (apply elem_of_cons in H as [H|H]; [discriminate H|]).
           inversion H.
      * intros code' o' Hin'. rewrite Hnew in Hin'.
        apply elem_of_app in Hin' as [Hin'|Hin']; [destruct (Hnocp _ _ Hin')|].
        apply elem_of_cons in Hin' as [Hin'|Hin']; [discriminate Hin'|].
        apply elem_of_cons in Hin' as [Hin'|Hin']; [discriminate Hin'|].
        apply elem_of_cons in Hin' as [Hin'|Hin'].
        -- injection Hin' as -> ->. split; [exact Hres|].
           rewrite Hnew. apply elem_of_app. right.
           right. right. right. left.
        -- repeat (apply elem_of_cons in Hin' as [Hin'|Hin']; [discriminate Hin'|]).
           inversion Hin'.
      * intros b Hb. exists code, o. split; [exact Hin|].
        rewrite Hres in Hb. injection Hb as <-. reflexivity.
Qed.

End DownloadTheorems.

Section ProbeAndFlags.

Variable w : World.


Lemma download_with_progress_processes
    (source destination : string) (total_size : option Z) (st : State)
    (argv : list string) (p : proc) :
  Run argv p ∈ events_of (download_with_progress w source destination total_size) st ->
  argv = du_argv source
  \/ argv = cp_argv (MAX_THREADS_PER_DOWNLOAD st) source destination.
Proof.
  intros Hin.
  destruct (download_with_progress_events w source destination total_size st)
    as [(e & probe & _ & Hnew & Hprobe)
       |(probe & total & q & Hnew & Hprobe & _)];
    rewrite Hnew in Hin.
  - destruct (Hprobe _ Hin) as [q Hq]. left. congruence.
  - apply elem_of_app in Hin as [Hin|Hin].
    + destruct (Hprobe _ Hin) as [q' Hq]. left. congruence.
    + apply elem_of_app in Hin as [Hin|Hin].
      * apply elem_of_cons in Hin as [Hin|Hin]; [discriminate Hin|].
        apply elem_of_cons in Hin as [Hin|Hin]; [discriminate Hin|].
        apply elem_of_cons in Hin as [Hin|Hin]; [right; congruence|].
        inversion Hin.
      * destruct q; simpl in Hin; [inversion Hin|].
        repeat (apply elem_of_cons in Hin as [Hin|Hin]; [discriminate Hin|]).
        inversion Hin.
Qed.

Lemma download_with_progress_fs
    (source destination : string) (total_size : option Z) (st : State) :
  fs (snd (download_with_progress w source destination total_size st))
  = match total_size with
    | Some _ =>
        snd (subprocess_run w
               (cp_argv (MAX_THREADS_PER_DOWNLOAD st) source destination) (fs st))
    | None =>
        let files := snd (subprocess_run w (du_argv source) (fs st)) in
        if is_returned (fst (get_size_of_object w source st))
        then snd (subprocess_run w
                    (cp_argv (MAX_THREADS_PER_DOWNLOAD st) source destination) files)
        else files
    end.
Proof.
  destruct total_size as [t|].
  - rewrite download_with_progress_some, download_with_total_run. reflexivity.
  - rewrite download_with_progress_none.
    destruct (get_size_of_object w source st) as [r st'] eqn:E.
    rewrite get_size_of_object_run in E. injection E as Hr Hst.
    destruct r as [total|e]; simpl.
    + rewrite download_with_total_run. subst st'. reflexivity.
    + subst st'. reflexivity.
Qed.

(** C10. The command line of every copy has the shape
    [gsutil <options> cp -r -n source destination]; every process
    [download_with_progress] starts is the size probe or that copy;
    and so, with a tool that keeps its word on [-n] and a probe that
    only reads, every file that is on the disk before the download,
    the destination included, is there unchanged after it. *)
Theorem copy_recursive_and_no_clobber
    (source destination : string) (total_size : option Z) (st : State) :
  (forall thr, exists options,
      cp_argv thr source destination
      = "gsutil" :: options ++ ["cp"; "-r"; "-n"; source; destination])
  /\ (forall argv p,
        Run argv p ∈ events_of (download_with_progress w source destination total_size) st ->
        argv = du_argv source
        \/ argv = cp_argv (MAX_THREADS_PER_DOWNLOAD st) source destination)
  /\ (honours_no_clobber w -> probe_read_only w ->
      forall path content,
        fs st !! path = Some (File content) ->
        fs (snd (download_with_progress w source destination total_size st)) !! path
        = Some (File content)).
Proof.
  split; [|split].
  - intros thr.
    exists [ "-m";
             "-o"; "GSUtil:parallel_thread_count=" +:+ pretty thr;
             "-o"; "GSUtil:parallel_process_count=1";
             "-o"; "GSUtil:sliced_object_download_threshold=64M";
             "-o"; "GSUtil:sliced_object_download_max_components=8" ].
    reflexivity.
  - intros argv p. apply download_with_progress_processes.
  - intros Hn Hro path content Hfile.
    assert (Hflag : forall thr, "-n" ∈ cp_argv thr source destination).
    { intros thr. unfold cp_argv. do 12 right. left. }
    rewrite download_with_progress_fs.
    destruct total_size as [t|].
    + apply Hn; [apply Hflag | exact Hfile].
    + simpl. rewrite (Hro source (fs st)).
      destruct (is_returned _); [|exact Hfile].
      apply Hn; [apply Hflag | exact Hfile].
Qed.

End ProbeAndFlags.

Section FolderMode.

Variable w : World.

Lemma makedirs_if_missing_run (path : string) (st : State) :
  makedirs_if_missing w path st
  = match fs st !! path with
    | Some _ => (Returned tt, st)
    | None =>
        match makedirs_error w path with
        | Some msg => (Raised (OSError msg), st)
        | None =>
            (Returned tt, emit (Makedirs path) (set_fs (<[path := Dir]> (fs st)) st))
        end
    end.
Proof.
  unfold makedirs_if_missing, bind, exists_, makedirs, ret.
  destruct (fs st !! path) as [nd|] eqn:E; simpl; [reflexivity|].
  rewrite E. destruct (makedirs_error w path); reflexivity.
Qed.

Lemma download_with_progress_trace
    (source destination : string) (total_size : option Z) (st : State) :
  trace (snd (download_with_progress w source destination total_size st))
  = trace st ++ events_of (download_with_progress w source destination total_size) st.
Proof.
  assert (H : exists l,
    trace (snd (download_with_progress w source destination total_size st))
    = trace st ++ l).
  { destruct total_size as [t|].
    - rewrite download_with_progress_some, download_with_total_run.
      eexists. reflexivity.
    - rewrite download_with_progress_none.
      destruct (get_size_of_object w source st) as [r st'] eqn:E.
      rewrite get_size_of_object_run in E. injection E as Hr Hst.
      destruct r as [total|e].
      + rewrite download_with_total_run. subst st'. simpl.
        rewrite <- app_assoc. eexists. reflexivity.
      + subst st'. simpl. eexists. reflexivity. }
  destruct H as [l Hl]. rewrite (events_of_app _ _ _ Hl). exact Hl.
Qed.

Lemma download_with_progress_no_makedirs
    (source destination : string) (total_size : option Z) (st : State) (path : string) :
  Makedirs path ∉ events_of (download_with_progress w source destination total_size) st.
Proof.
  intros Hin.
  destruct (download_with_progress_events w source destination total_size st)
    as [(e & probe & _ & Hnew & Hprobe)
       |(probe & total & q & Hnew & Hprobe & _)];
    rewrite Hnew in Hin.
  - destruct (Hprobe _ Hin) as [q Hq]. discriminate Hq.
  - apply elem_of_app in Hin as [Hin|Hin].
    + destruct (Hprobe _ Hin) as [q' Hq]. discriminate Hq.
    + apply elem_of_app in Hin as [Hin|Hin].
      * repeat (apply elem_of_cons in Hin as [Hin|Hin]; [discriminate Hin|]).
        inversion Hin.
      * destruct q; simpl in Hin; [inversion Hin|].
        repeat (apply elem_of_cons in Hin as [Hin|Hin]; [discriminate Hin|]).
        inversion Hin.
Qed.

(** The folder transfer the three folder paths share: make the
    directory if it is missing, then download into it. *)
Lemma folder_transfer_discipline {A} (item folder_dest : string)
    (k : bool -> A) (st : State) :
  exists new,
    trace (snd ((makedirs_if_missing w folder_dest ;;;
                 success <- download_with_progress w item folder_dest None ;;
                 ret (k success)) st))
    = trace st ++ new
    /\ folder_discipline item folder_dest (fs st) (MAX_THREADS_PER_DOWNLOAD st) new.
Proof.
  unfold bind at 1. rewrite makedirs_if_missing_run.
  destruct (fs st !! folder_dest) as [nd|] eqn:Hfd.
  - (* already there: nothing is made *)
    exists (events_of (download_with_progress w item folder_dest None) st).
    split.
    + unfold bind, ret.
      pose proof (download_with_progress_trace item folder_dest None st) as Ht.
      destruct (download_with_progress w item folder_dest None st) as [[b|e] st'];
        exact Ht.
    + split; [|split].
      * intros argv p. apply download_with_progress_processes.
      * intros pre p post _. left. eauto.
      * intros path Hin. exfalso.
        exact (download_with_progress_no_makedirs _ _ _ _ _ Hin).
  - destruct (makedirs_error w folder_dest) as [msg|] eqn:Herr.
    + (* the directory cannot be made: nothing is dispatched *)
      exists []. split; [simpl; rewrite app_nil_r; reflexivity|].
      split; [|split].
      * intros argv p Hin. inversion Hin.
      * intros pre p post Heq. destruct pre; discriminate Heq.
      * intros path Hin. inversion Hin.
    + (* made first, then the download *)
      set (st1 := emit (Makedirs folder_dest) (set_fs (<[folder_dest := Dir]> (fs st)) st)).
      exists (Makedirs folder_dest
              :: events_of (download_with_progress w item folder_dest None) st1).
      split.
      * unfold bind, ret.
        pose proof (download_with_progress_trace item folder_dest None st1) as Ht.
        destruct (download_with_progress w item folder_dest None st1) as [[b|e] st'];
          simpl in Ht |- *; rewrite Ht, <- app_assoc; reflexivity.
      * split; [|split].
        -- intros argv p Hin.
           apply elem_of_cons in Hin as [Hin|Hin]; [discriminate Hin|].
           exact (download_with_progress_processes w _ _ _ st1 _ _ Hin).
        -- intros pre p post Heq. right.
           destruct pre as [|ev pre]; simpl in Heq; [discriminate Heq|].
           injection Heq as <- _. left.
        -- intros path Hin.
           apply elem_of_cons in Hin as [Hin|Hin].
           ++ injection Hin as ->. split; [reflexivity | exact Hfd].
           ++ exfalso. exact (download_with_progress_no_makedirs _ _ _ _ _ Hin).
Qed.


End FolderMode.

(* ===================================================================== *)
(** * Properties of the worker pool                                       *)
(* ===================================================================== *)

Section PoolFacts.

Context {A B St : Type}.
Variable fn : A -> St -> result B * St.
Variable max_workers : nat.
Variable items : list A.

Local Open Scope nat_scope.

Import Pool.

Local Notation "'poolT'" := (@pool B St).
Local Notation "p '~>' q" := (step fn max_workers items p q) (at level 70).
Local Notation "p '~>*' q" := (steps fn max_workers items p q) (at level 70).
Local Notation "'start_of' s" := (@submit_all A B St items s) (at level 10).

Lemma inv_submit_all (s : St) : inv fn max_workers items (start_of s).
Proof.
  constructor; simpl.
  - reflexivity.
  - lia.
  - left. f_equal. lia.
  - constructor.
  - intros i Hi. inversion Hi.
  - lia.
  - intros i r Hi. rewrite lookup_empty in Hi. discriminate Hi.
  - intros i Hi. lia.
  - intros j b Hj. discriminate Hj.
  - intros H. discriminate H.
Qed.

Lemma inv_collected_length (p : poolT) :
  inv fn max_workers items p -> length (collected p) <= length (started p).
Proof.
  intros Hinv.
  destruct (collected p) as [|b l] eqn:E using rev_ind; [simpl; lia|].
  clear IHl.
  assert (Hl : collected p !! length l = Some b).
  { rewrite E. rewrite lookup_app_r by lia. rewrite Nat.sub_diag. reflexivity. }
  apply (inv_collected _ _ _ p Hinv) in Hl. apply (inv_futures _ _ _ p Hinv) in Hl as [Hl _].
  rewrite length_app. simpl. lia.
Qed.

Lemma inv_step (p q : poolT) : inv fn max_workers items p -> p ~> q -> inv fn max_workers items q.
Proof.
  intros Hinv Hstep.
  destruct Hstep as [p i q Hpend Hw | p i a r1 r2 Hrun Hitem | p b Hph Hfut
                    | p e Hph Hfut | p Hph Hlen].
  - (* start *)
    pose proof (inv_started_le _ _ _ p Hinv) as Hle.
    destruct (inv_pending _ _ _ p Hinv) as [Hp|[Hp _]]; [|congruence].
    rewrite Hpend in Hp.
    destruct (length items - length (started p)) as [|m] eqn:Em; [discriminate Hp|].
    simpl in Hp. injection Hp as -> ->.
    constructor; simpl; rewrite ?length_app; simpl.
    + rewrite Nat.add_1_r, seq_S. simpl. f_equal. apply (inv_started _ _ _ p Hinv).
    + lia.
    + left. f_equal; lia.
    + apply NoDup_app. split; [apply (inv_running_nodup _ _ _ p Hinv)|]. split.
      * intros x Hx Hx'. apply list_elem_of_singleton in Hx'. subst x.
        apply (inv_running _ _ _ p Hinv) in Hx. lia.
      * apply NoDup_singleton.
    + intros i Hi. apply elem_of_app in Hi as [Hi|Hi].
      * apply (inv_running _ _ _ p Hinv) in Hi. split; [lia | tauto].
      * apply list_elem_of_singleton in Hi. subst i. split; [lia|].
        destruct (futures p !! length (started p)) as [r|] eqn:Ef; [|reflexivity].
        apply (inv_futures _ _ _ p Hinv) in Ef. lia.
    + lia.
    + intros i r Hi. apply (inv_futures _ _ _ p Hinv) in Hi. split; [lia | tauto].
    + intros i Hi. destruct (decide (i = length (started p))) as [->|Hne].
      * left. apply elem_of_app. right. left.
      * destruct (inv_taken _ _ _ p Hinv i) as [H|H]; [lia| |right; exact H].
        left. apply elem_of_app. left. exact H.
    + apply (inv_collected _ _ _ p Hinv).
    + apply (inv_done _ _ _ p Hinv).
  - (* finish *)
    pose proof (inv_running_nodup _ _ _ p Hinv) as Hnd. rewrite Hrun in Hnd.
    apply NoDup_app in Hnd as (Hnd1 & Hdisj & Hnd2).
    apply NoDup_cons in Hnd2 as [Hi2 Hnd2].
    assert (Hi1 : i ∉ r1).
    { intros H. apply (Hdisj i H). left. }
    assert (Hirun : i ∈ running p).
    { rewrite Hrun. apply elem_of_app. right. left. }
    constructor; simpl.
    + apply (inv_started _ _ _ p Hinv).
    + apply (inv_started_le _ _ _ p Hinv).
    + apply (inv_pending _ _ _ p Hinv).
    + apply NoDup_app. split; [exact Hnd1|]. split; [|exact Hnd2].
      intros x Hx Hx'. apply (Hdisj x Hx). right. exact Hx'.
    + intros j Hj.
      assert (Hjrun : j ∈ running p).
      { rewrite Hrun. apply elem_of_app.
        apply elem_of_app in Hj as [Hj|Hj]; [left; exact Hj|right; right; exact Hj]. }
      assert (Hne : i <> j).
      { intros ->. apply elem_of_app in Hj as [Hj|Hj]; tauto. }
      rewrite lookup_insert_ne by exact Hne.
      apply (inv_running _ _ _ p Hinv). exact Hjrun.
    + pose proof (inv_width _ _ _ p Hinv) as Hwd. rewrite Hrun in Hwd.
      rewrite length_app in Hwd |- *. simpl in Hwd. lia.
    + intros j r Hj. destruct (decide (i = j)) as [->|Hne].
      * rewrite lookup_insert_eq in Hj. injection Hj as <-.
        split; [apply (inv_running _ _ _ p Hinv); exact Hirun|]. eauto.
      * rewrite lookup_insert_ne in Hj by exact Hne.
        apply (inv_futures _ _ _ p Hinv). exact Hj.
    + intros j Hj. destruct (decide (i = j)) as [->|Hne].
      * right. rewrite lookup_insert_eq. eauto.
      * rewrite lookup_insert_ne by exact Hne.
        destruct (inv_taken _ _ _ p Hinv j Hj) as [H|H]; [|right; exact H].
        left. rewrite Hrun in H. apply elem_of_app.
        apply elem_of_app in H as [H|H]; [left; exact H|].
        apply elem_of_cons in H as [H|H]; [congruence|right; exact H].
    + intros j b Hj. apply (inv_collected _ _ _ p Hinv) in Hj.
      destruct (decide (i = j)) as [->|Hne].
      * apply (inv_running _ _ _ p Hinv) in Hirun. destruct Hirun as [_ Hnone].
        congruence.
      * rewrite lookup_insert_ne by exact Hne. exact Hj.
    + apply (inv_done _ _ _ p Hinv).
  - (* collect *)
    constructor; simpl; try apply Hinv.
    + intros j b' Hj.
      destruct (decide (j < length (collected p))) as [Hlt|Hge].
      * rewrite lookup_app_l in Hj by exact Hlt. apply (inv_collected _ _ _ p Hinv). exact Hj.
      * rewrite lookup_app_r in Hj by lia.
        destruct (j - length (collected p)) as [|m] eqn:Em; [|discriminate Hj].
        injection Hj as <-. replace j with (length (collected p)) by lia. exact Hfut.
    + intros H. congruence.
  - (* raise *)
    constructor; simpl; try apply Hinv.
    + right. split; [reflexivity|]. eauto.
    + intros H. discriminate H.
  - (* done *)
    constructor; simpl; try apply Hinv.
    + destruct (inv_pending _ _ _ p Hinv) as [H|[_ [e He]]]; [left; exact H|congruence].
    + intros _. exact Hlen.
Qed.

Lemma inv_steps (s : St) (p : poolT) : start_of s ~>* p -> inv fn max_workers items p.
Proof.
  intros H. remember (start_of s) as p0 eqn:E.
  induction H as [p1|p1 q r H IH Hstep]; subst.
  - apply inv_submit_all.
  - exact (inv_step q r (IH eq_refl) Hstep).
Qed.

Lemma step_measure (p q : poolT) :
  inv fn max_workers items p -> p ~> q -> measure items q < measure items p.
Proof.
  intros Hinv Hstep.
  destruct Hstep as [p i q Hpend Hw | p i a r1 r2 Hrun Hitem | p b Hph Hfut
                    | p e Hph Hfut | p Hph Hlen];
    unfold measure; simpl.
  - rewrite Hpend, length_app. simpl. lia.
  - rewrite Hrun, !length_app. simpl. lia.
  - rewrite Hph, length_app. simpl.
    apply (inv_futures _ _ _ p Hinv) in Hfut as [Hlt _].
    pose proof (inv_started_le _ _ _ p Hinv). lia.
  - rewrite Hph. lia.
  - rewrite Hph. lia.
Qed.

Lemma step_progress (p : poolT) :
  1 <= max_workers -> inv fn max_workers items p -> final p \/ exists q, p ~> q.
Proof.
  intros Hw Hinv. unfold final.
  destruct (running p) as [|i r] eqn:Er.
  - assert (Hstart : pending p <> [] -> exists q, p ~> q).
    { intros Hne. destruct (pending p) as [|i q] eqn:Ep; [congruence|].
      eexists. apply (step_start fn max_workers items p i q Ep).
      rewrite Er. simpl. lia. }
    destruct (phase p) eqn:Eph.
    + right.
      destruct (futures p !! length (collected p)) as [[b|e]|] eqn:Ef.
      * eexists. exact (step_collect fn max_workers items p b Eph Ef).
      * eexists. exact (step_raise fn max_workers items p e Eph Ef).
      * destruct (decide (length (collected p) = length items)) as [Heq|Hne].
        -- eexists. exact (step_done fn max_workers items p Eph Heq).
        -- apply Hstart.
           pose proof (inv_collected_length p Hinv) as Hc.
           pose proof (inv_started_le _ _ _ p Hinv) as Hk.
           assert (Hkc : length (started p) <= length (collected p)).
           { destruct (decide (length (collected p) < length (started p))) as [Hlt|]; [|lia].
             destruct (inv_taken _ _ _ p Hinv _ Hlt) as [H|[r H]].
             - rewrite Er in H. inversion H.
             - congruence. }
           destruct (inv_pending _ _ _ p Hinv) as [Hp|[_ [e He]]]; [|congruence].
           rewrite Hp.
           destruct (length items - length (started p)) as [|m] eqn:Em; [lia|].
           discriminate.
    + destruct (pending p) as [|i q] eqn:Ep.
      * left. split; [discriminate|]. split; reflexivity.
      * right. apply Hstart. discriminate.
    + destruct (pending p) as [|i q] eqn:Ep.
      * left. split; [discriminate|]. split; reflexivity.
      * right. apply Hstart. discriminate.
  - right.
    assert (Hi : i ∈ running p) by (rewrite Er; left).
    apply (inv_running _ _ _ p Hinv) in Hi as [Hlt _].
    pose proof (inv_started_le _ _ _ p Hinv) as Hk.
    destruct (lookup_lt_is_Some_2 items i) as [a Ha]; [lia|].
    eexists. exact (step_finish fn max_workers items p i a [] r Er Ha).
Qed.

Lemma final_done (p : poolT) :
  inv fn max_workers items p -> final p -> phase p = Done ->
  length (collected p) = length items
  /\ started p = seq 0 (length items)
  /\ forall j b, collected p !! j = Some b ->
       exists a s, items !! j = Some a /\ fst (fn a s) = Returned b.
Proof.
  intros Hinv (_ & Hpend & _) Hph. split; [|split].
  - apply (inv_done _ _ _ p Hinv Hph).
  - destruct (inv_pending _ _ _ p Hinv) as [Hp|[_ [e He]]]; [|congruence].
    rewrite Hpend in Hp.
    pose proof (inv_started_le _ _ _ p Hinv) as Hk.
    assert (Hk' : length (started p) = length items).
    { destruct (length items - length (started p)) as [|m] eqn:Em; [lia|discriminate Hp]. }
    rewrite <- Hk'. apply (inv_started _ _ _ p Hinv).
  - intros j b Hj. apply (inv_collected _ _ _ p Hinv) in Hj.
    apply (inv_futures _ _ _ p Hinv) in Hj as (_ & a & s & Ha & Hr). eauto.
Qed.

Lemma no_task_raises_no_failure (s : St) (p : poolT) :
  (forall a st, a ∈ items -> is_returned (fst (fn a st)) = true) ->
  start_of s ~>* p -> forall e, phase p <> Failed e.
Proof.
  intros Hret H. remember (start_of s) as p0 eqn:E.
  induction H as [p1|p1 q r H IH Hstep]; subst.
  - intros e He. discriminate He.
  - specialize (IH eq_refl). pose proof (inv_steps s q H) as Hinv.
    destruct Hstep as [p i q Hpend Hw | p i a r1 r2 Hrun Hitem | p b Hph Hfut
                      | p e Hph Hfut | p Hph Hlen]; simpl; try exact IH.
    + exfalso. apply (inv_futures _ _ _ p Hinv) in Hfut as (_ & a & st & Ha & Hr).
      assert (Hin : a ∈ items) by (apply list_elem_of_lookup; eauto).
      specialize (Hret a st Hin). rewrite <- Hr in Hret. discriminate Hret.
    + intros e He. discriminate He.
Qed.

Lemma steps_trans (p q r : poolT) : p ~>* q -> q ~>* r -> p ~>* r.
Proof.
  intros Hpq Hqr. induction Hqr as [|q r' r'' _ IH Hstep]; [exact Hpq|].
  exact (steps_step fn max_workers items p r' r'' (IH Hpq) Hstep).
Qed.

Lemma steps_one (p q : poolT) : p ~> q -> p ~>* q.
Proof.
  intros H. exact (steps_step fn max_workers items p p q (steps_refl _ _ _ p) H).
Qed.

Lemma steps_head (p q r : poolT) : p ~> q -> q ~>* r -> p ~>* r.
Proof. intros H Hs. exact (steps_trans p q r (steps_one p q H) Hs). Qed.

(** The serial schedule, from the state in which the tasks before
    [rest] have been taken, finished and collected. *)
Lemma serial_from (rest pre : list A) (acc : list B) (s : St)
    (F : gmap nat (result B)) (taken : list nat) :
  1 <= max_workers ->
  items = pre ++ rest ->
  length acc = length pre ->
  exists p,
    mkPool (seq (length pre) (length rest)) [] F taken acc Collecting s ~>* p
    /\ final p
    /\ shared p = snd (serial fn rest acc s)
    /\ match fst (serial fn rest acc s) with
       | Returned l => phase p = Done /\ collected p = l
       | Raised e => phase p = Failed e
       end.
Proof.
  intros Hw. revert pre acc s F taken.
  induction rest as [|a rest IH]; intros pre acc s F taken Hitems Hlen.
  - eexists. split; [|split; [|split]].
    + apply steps_one. apply step_done; simpl; [reflexivity|].
      rewrite Hitems, app_nil_r. exact Hlen.
    + split; [discriminate|]. split; reflexivity.
    + reflexivity.
    + simpl. split; reflexivity.
  - set (i := length pre).
    assert (Hi : items !! i = Some a).
    { rewrite Hitems. apply list_lookup_middle. reflexivity. }
    set (p0 := mkPool (seq i (length (a :: rest))) [] F taken acc Collecting s).
    set (p1 := mkPool (seq (S i) (length rest)) [i] F (taken ++ [i]) acc Collecting s).
    set (p2 := mkPool (seq (S i) (length rest)) []
                      (<[i := fst (fn a s)]> F) (taken ++ [i]) acc Collecting
                      (snd (fn a s))).
    assert (H01 : p0 ~> p1).
    { apply (step_start fn max_workers items p0 i (seq (S i) (length rest)));
        [reflexivity | simpl; lia]. }
    assert (H12 : p1 ~> p2).
    { apply (step_finish fn max_workers items p1 i a [] []); [reflexivity | exact Hi]. }
    simpl. destruct (fn a s) as [[b|e] s'] eqn:Efn; simpl in p2.
    + set (p3 := mkPool (seq (S i) (length rest)) []
                        (<[i := Returned b]> F) (taken ++ [i]) (acc ++ [b]) Collecting s').
      assert (H23 : p2 ~> p3).
      { apply (step_collect fn max_workers items p2 b); [reflexivity|].
        simpl. rewrite Hlen. apply lookup_insert_eq. }
      destruct (IH (pre ++ [a]) (acc ++ [b]) s' (<[i := Returned b]> F) (taken ++ [i]))
        as (p & Hsteps & Hfinal & Hshared & Hres).
      { rewrite <- app_assoc. exact Hitems. }
      { rewrite !length_app. simpl. lia. }
      exists p. split; [|split; [|split]]; try assumption.
      replace (length (pre ++ [a])) with (S i) in Hsteps
        by (rewrite length_app; simpl; unfold i; lia).
      fold p3 in Hsteps.
      eapply steps_trans; [|exact Hsteps].
      eapply steps_trans; [apply steps_one; exact H01|].
      eapply steps_trans; [apply steps_one; exact H12|].
      apply steps_one. exact H23.
    + set (p3 := mkPool [] [] (<[i := Raised e]> F) (taken ++ [i]) acc (Failed e) s').
      assert (H23 : p2 ~> p3).
      { apply (step_raise fn max_workers items p2 e); [reflexivity|].
        simpl. rewrite Hlen. apply lookup_insert_eq. }
      exists p3. split; [|split; [|split]].
      * eapply steps_trans; [apply steps_one; exact H01|].
        eapply steps_trans; [apply steps_one; exact H12|].
        apply steps_one. exact H23.
      * split; [discriminate|]. split; reflexivity.
      * reflexivity.
      * reflexivity.
Qed.

(** [executor_map] is what one of the schedules gives. *)
Lemma executor_map_is_a_schedule (s : St) :
  1 <= max_workers ->
  exists p,
    start_of s ~>* p
    /\ final p
    /\ shared p = snd (executor_map fn items s)
    /\ match fst (executor_map fn items s) with
       | Returned l => phase p = Done /\ collected p = l
       | Raised e => phase p = Failed e
       end.
Proof.
  intros Hw.
  exact (serial_from items [] [] s ∅ [] Hw eq_refl eq_refl).
Qed.

End PoolFacts.

(* ===================================================================== *)
(** * Properties of the batch orchestrator                                *)
(* ===================================================================== *)

Section BatchFacts.

Variable w : World.
Variable destination : string.
Variable is_folders : bool.

Local Open Scope nat_scope.

Lemma download_item_fst (item : string) (st : State) (r : string * bool) :
  fst (download_item w destination is_folders item st) = Returned r -> fst r = item.
Proof.
  unfold download_item. destruct is_folders; unfold bind, ret.
  - destruct (makedirs_if_missing w _ st) as [[u|e] st1]; [|discriminate].
    destruct (download_with_progress w item _ None st1) as [[b|e] st2];
      [|discriminate].
    simpl. intros H. injection H as <-. reflexivity.
  - destruct (download_with_progress w item _ None st) as [[b|e] st2];
      [|discriminate].
    simpl. intros H. injection H as <-. reflexivity.
Qed.

Lemma successful_failed_length (results : list (string * bool)) :
  length (successful results) + length (failed results) = length results.
Proof.
  unfold successful, failed. rewrite !length_fmap.
  induction results as [|[item [|]] rest IH]; [reflexivity| |].
  - rewrite filter_cons_True by reflexivity.
    rewrite (filter_cons_False (fun r : string * bool => r.2 = false)) by (simpl; discriminate).
    simpl. lia.
  - rewrite filter_cons_False by (simpl; discriminate).
    rewrite (filter_cons_True (fun r : string * bool => r.2 = false)) by reflexivity.
    simpl. lia.
Qed.

Lemma failed_copy_returns_false (source dest : string) (total : Z) (st : State)
    (code : Z) (out : string) :
  fst (subprocess_run w (cp_argv (MAX_THREADS_PER_DOWNLOAD st) source dest) (fs st))
  = Exited code out ->
  code <> 0%Z ->
  fst (download_with_total w source dest total st) = Returned false.
Proof.
  intros Hp Hcode. rewrite download_with_total_run. simpl. rewrite Hp.
  destruct (code =? 0)%Z eqn:E; [lia | reflexivity].
Qed.


Lemma fmap_fst_positions (items : list string) (results : list (string * bool)) :
  length results = length items ->
  (forall j r, results !! j = Some r -> items !! j = Some (fst r)) ->
  results.*1 = items.
Proof.
  intros Hlen Hpos. apply list_eq_same_length with (length items).
  - reflexivity.
  - rewrite length_fmap. exact Hlen.
  - intros i x y Hi Hx Hy. rewrite list_lookup_fmap in Hx.
    destruct (results !! i) as [r|] eqn:Er; [|discriminate Hx].
    apply Hpos in Er. simpl in Hx. congruence.
Qed.


End BatchFacts.

(* ===================================================================== *)
(** * Properties of the front end                                         *)
(* ===================================================================== *)

Section InteractiveFacts.

Variable w : World.

Lemma int_raises_ValueError (s : string) (e : exn) :
  Py.int s = Raised e -> e = ValueError.
Proof.
  unfold Py.int.
  destruct (String.list_ascii_of_string (strip s)) as [|c rest]; [congruence|].
  destruct (Ascii.eqb c "-"); [|destruct (Ascii.eqb c "+")];
    destruct (int_digits _ _ _); congruence.
Qed.

Lemma parse_indices_raises_ValueError (fields : list string) (e : exn) :
  parse_indices fields = Raised e -> e = ValueError.
Proof.
  induction fields as [|idx rest IH]; simpl; [discriminate|].
  destruct (Py.int (strip idx)) as [v|e'] eqn:Ei.
  - destruct (parse_indices rest) as [vs|e'']; [discriminate|].
    intros H. injection H as <-. apply IH. reflexivity.
  - intros H. injection H as <-. exact (int_raises_ValueError _ _ Ei).
Qed.


End InteractiveFacts.

Section ExitCodes.

Variable w : World.

Lemma get_default_destination_run (st : State) :
  get_default_destination w st = (Returned (default_destination w (fs st)), st).
Proof.
  unfold get_default_destination, bind, isdir, ret, default_destination.
  destruct (fs st !! path_join (expanduser w "~") "Desktop/Canva") as [[|c]|];
    reflexivity.
Qed.

Lemma resolve_destination_run (args : Args) (st : State) :
  let d := chosen_destination w args (fs st) in
  resolve_destination w args st
  = match fs st !! d with
    | Some _ => (Returned d, st)
    | None =>
        match makedirs_error w d with
        | Some msg =>
            (Raised (SystemExit 1),
             emit (SayExc "Error creating destination directory: " (OSError msg)) st)
        | None =>
            (Returned d,
             emit (Say ("Created directory: " +:+ d))
                  (emit (Makedirs d) (set_fs (<[d := Dir]> (fs st)) st)))
        end
    end.
Proof.
  intros d. unfold resolve_destination. unfold bind at 1.
  assert (Hchosen :
    match destination args with
    | Some d0 => if truthy d0 then ret d0 else get_default_destination w
    | None => get_default_destination w
    end st
    = (Returned match destination args with
                | Some d0 => if truthy d0 then d0 else default_destination w (fs st)
                | None => default_destination w (fs st)
                end, st)).
  { destruct (destination args) as [d0|]; [destruct (truthy d0)|];
      try reflexivity; apply get_default_destination_run. }
  rewrite Hchosen. fold (chosen_destination w args (fs st)). fold d.
  unfold bind, exists_, makedirs, ret.
  destruct (fs st !! d) as [nd|] eqn:Hd; simpl; [reflexivity|].
  rewrite Hd. destruct (makedirs_error w d); reflexivity.
Qed.

Lemma require_bucket_missing (args : Args) (st : State) :
  truthy_opt (bucket args) = false ->
  fst (require_bucket args st) = Raised (SystemExit 1).
Proof.
  unfold require_bucket, truthy_opt, truthy.
  destruct (bucket args) as [[|c b]|]; simpl; intros H;
    [reflexivity | discriminate H | reflexivity].
Qed.

Lemma require_bucket_given (args : Args) (st : State) :
  truthy_opt (bucket args) = true ->
  exists b, require_bucket args st = (Returned b, st).
Proof.
  unfold require_bucket, truthy_opt, truthy.
  destruct (bucket args) as [[|c b]|]; simpl; intros H;
    [discriminate H | eexists; reflexivity | discriminate H].
Qed.

Lemma report_download_returns (what : string) (success : bool) (st : State) :
  fst (report_download what success st) = Returned tt.
Proof. destruct success; reflexivity. Qed.

Lemma print_failed_returns (l : list string) (st : State) :
  fst (print_failed l st) = Returned tt.
Proof.
  revert st. induction l as [|item rest IH]; intros st; [reflexivity|].
  simpl. unfold bind, print. apply IH.
Qed.

Lemma report_returns (results : list (string * bool)) (st : State) :
  fst (report results st) = Returned tt.
Proof.
  unfold report, bind.
  destruct (bool_decide (successful results = [])); simpl;
    destruct (bool_decide (failed results = [])); simpl;
    try reflexivity; apply print_failed_returns.
Qed.

(** [except Exception] leaves nothing to escape from
    [optimize_gsutil_config]. *)
Lemma optimize_gsutil_config_returns (st : State) :
  fst (optimize_gsutil_config w st) = Returned tt.
Proof.
  unfold optimize_gsutil_config, bind at 1, print.
  set (st0 := emit (Say "Applying gsutil performance optimizations...") st).
  cbv beta.
  match goal with
  | |- fst (match ?body st0 with _ => _ end) = _ =>
      assert (Hbody : forall c, fst (body st0) <> Raised (SystemExit c));
      [|destruct (body st0) as [[[]|e] st1]; [reflexivity|];
        destruct e; try reflexivity; exfalso; exact (Hbody _ eq_refl)]
  end.
  intros c. unfold bind at 1, exists_.
  destruct (fs st0 !! expanduser w "~/.boto") as [[|content]|] eqn:Eb; cbv beta iota.
  - unfold bind, read_file. rewrite Eb. discriminate.
  - unfold bind at 1. unfold bind at 1, read_file. rewrite Eb. unfold ret.
    destruct (contains "parallel_thread_count" content); [discriminate|].
    unfold bind. rewrite run_checked_run.
    destruct (fst (subprocess_run w _ (fs st0))) as [|code out]; [discriminate|].
    destruct (code =? 0); discriminate.
  - unfold bind at 1, ret. unfold bind. rewrite run_checked_run.
    destruct (fst (subprocess_run w _ (fs st0))) as [|code out]; [discriminate|].
    destruct (code =? 0); discriminate.
Qed.

Lemma check_gsutil_installed_fails (st : State) :
  (fst (subprocess_run w ["gsutil"; "version"] (fs st)) = NotFound
   \/ exists code out,
        fst (subprocess_run w ["gsutil"; "version"] (fs st)) = Exited code out
        /\ code <> 0) ->
  fst (check_gsutil_installed w st) = Returned false.
Proof.
  intros H. unfold check_gsutil_installed. rewrite run_checked_run.
  destruct H as [H|(code & out & H & Hcode)]; rewrite H; [reflexivity|].
  destruct (code =? 0) eqn:E; [lia | reflexivity].
Qed.

Lemma main_run (args : Args) (st : State) :
  main w args st
  = match check_gsutil_installed w
            (set_globals (max_parallel args) (threads args) st) with
    | (Returned true, _) =>
        (if is_interactive args then interactive_download w else cli_download w args)
          (ready w args st)
    | (Returned false, st1) => (Raised (SystemExit 1), st1)
    | (Raised e, st1) => (Raised e, st1)
    end.
Proof.
  unfold main, bind at 1. unfold bind at 1. unfold ready.
  destruct (check_gsutil_installed w _) as [[[|]|e] st1]; try reflexivity.
  unfold bind. cbv beta iota delta [negb snd].
  pose proof (optimize_gsutil_config_returns st1) as Hopt.
  destruct (optimize_gsutil_config w st1) as [[u|e] st2]; simpl in Hopt;
    [reflexivity | discriminate Hopt].
Qed.

Lemma script_run (args : Args) (st : State) :
  find_spec w "tqdm" = true -> script w args st = main w args st.
Proof.
  intros H. unfold script, bind, check_required, required_packages, check_package.
  rewrite H. reflexivity.
Qed.

End ExitCodes.

Section ExitCodeTheorem.

Variable w : World.

Lemma prompt_for_destination_fails (s : State) (typed : string) (rest : list string)
    (msg : string) :
  stdin s = typed :: rest ->
  let d := expanduser w (if truthy typed then typed else default_destination w (fs s)) in
  fs s !! d = None ->
  makedirs_error w d = Some msg ->
  fst (prompt_for_destination w s) = Returned None.
Proof.
  intros Hin d Hd Herr.
  unfold prompt_for_destination, bind at 1. rewrite get_default_destination_run.
  unfold bind at 1, input. rewrite Hin. fold d.
  unfold bind, exists_, makedirs. simpl. rewrite Hd. simpl. rewrite Hd, Herr.
  reflexivity.
Qed.


End ExitCodeTheorem.

(* ===================================================================== *)
(** * The program on concrete inputs                                      *)
(* ===================================================================== *)

Ltac in_list := apply list_elem_of_In; vm_compute; repeat first [left; reflexivity | right].


(** The same run from the top, and the run in which the answer in the
    single-file mode is not a number: the first downloads, the second
    ends in an uncaught [ValueError], exit status 1. *)
Example interactive_runs :
  drop 15 (trace (snd (interactive_download Demo.good
                         (init_state Demo.home_only ["b"; "2"; ""; "1, 99"]))))
  = [ Say "Starting download of 1 files in parallel";
      Run (du_argv "gs://b/a.txt") (Exited 0 "12  gs://b/a.txt");
      BarCreate 12 "Downloading a.txt";
      ThreadStart;
      Run (cp_argv 8 "gs://b/a.txt" "/home/u/a.txt") (Exited 0 "");
      SetComplete;
      JoinThread 1000 true;
      BarClose 12;
      Say "Successfully downloaded 1 items" ]
  /\ fst (interactive_download Demo.good
            (init_state Demo.home_only ["b"; "1"; ""; "abc"])) = Raised ValueError
  /\ run_script Demo.good Demo.args_none
       (init_state Demo.home_only ["b"; "1"; ""; "abc"]) = 1.
Proof. split; [|split]; vm_compute; reflexivity. Qed.


(** The copy of one item of a batch fails: the function returns
    [False] after the signal, the join and the closing of the bar. *)
Lemma copy_completion_precedes_stop_signal_witness :
  fst (download_with_progress Demo.one_bad "gs://b/bad" "/home/u/bad" None
         (init_state Demo.home_only [])) = Returned false
  /\ SetComplete ∈ events_of
       (download_with_progress Demo.one_bad "gs://b/bad" "/home/u/bad" None)
       (init_state Demo.home_only []).
Proof.
  destruct (copy_completion_precedes_stop_signal Demo.one_bad
              "gs://b/bad" "/home/u/bad" None (init_state Demo.home_only []))
    as (_ & H & _).
  apply (H 1 EmptyString). in_list.
Defined.



Lemma demo_honours_no_clobber (version : proc) (du : string -> proc)
    (cp_code : string -> Z) (mk_err : string -> option string) (have_tqdm : bool)
    (pip_code : Z) :
  honours_no_clobber (Demo.world version du cp_code mk_err have_tqdm pip_code).
Proof.
  intros argv files path content Hn Hfile. simpl. unfold Demo.tool.
  repeat case_bool_decide; simpl; try exact Hfile.
  destruct (Demo.cp_parse argv) as [[[noclobber src] dst]|] eqn:E; simpl;
    [|exact Hfile].
  assert (Hnc : noclobber = true).
  { unfold Demo.cp_parse in E.
    destruct (rev argv) as [|dst' [|src' others]]; try discriminate E.
    case_bool_decide; [|discriminate E].
    injection E as <- _ _. apply bool_decide_eq_true_2. exact Hn. }
  subst noclobber. unfold Demo.cp_effect.
  destruct (cp_code src =? 0); [|exact Hfile].
  set (target := match files !! dst with
                 | Some Dir => path_join dst (basename src)
                 | _ => dst
                 end).
  destruct (files !! target) as [nd|] eqn:Et; [exact Hfile|].
  rewrite lookup_insert_ne; [exact Hfile|]. congruence.
Qed.

Lemma demo_probe_read_only (version : proc) (du : string -> proc)
    (cp_code : string -> Z) (mk_err : string -> option string) (have_tqdm : bool)
    (pip_code : Z) :
  probe_read_only (Demo.world version du cp_code mk_err have_tqdm pip_code).
Proof. intros bucket_path files. reflexivity. Qed.

(** Without [-n] the tool of the demonstration does overwrite. *)
Example demo_overwrites_without_flag :
  Demo.cp_effect false 0 "gs://b/a.txt" "/home/u/a.txt" Demo.home_with_file
    !! "/home/u/a.txt" = Some (File "data of gs://b/a.txt").
Proof. vm_compute. reflexivity. Qed.

Lemma copy_recursive_and_no_clobber_witness :
  fs (snd (download_with_progress Demo.good "gs://b/a.txt" "/home/u/a.txt" None
             (init_state Demo.home_with_file []))) !! "/home/u/a.txt"
  = Some (File "old").
Proof.
  destruct (copy_recursive_and_no_clobber Demo.good "gs://b/a.txt" "/home/u/a.txt" None
              (init_state Demo.home_with_file [])) as (_ & _ & H).
  apply H.
  - apply demo_honours_no_clobber.
  - apply demo_probe_read_only.
  - vm_compute. reflexivity.
Defined.



(** A schedule is followed step by step, the state being evaluated
    after each step. *)
Ltac pool_eval :=
  match goal with
  | |- Pool.steps _ _ _ ?q _ =>
      let q' := eval vm_compute in q in
      let H := fresh in
      assert (H : q = q') by (vm_compute; reflexivity);
      rewrite H; clear H
  end.
Ltac pool_start :=
  eapply steps_head; [eapply Pool.step_start; [reflexivity | simpl; lia]|];
  pool_eval.
Ltac pool_finish before after :=
  eapply steps_head;
  [eapply Pool.step_finish with (r1 := before) (r2 := after); reflexivity|];
  pool_eval.
Ltac pool_collect item success :=
  eapply steps_head;
  [eapply Pool.step_collect with (b := (item, success)); reflexivity|];
  pool_eval.
Ltac pool_done :=
  eapply steps_head; [eapply Pool.step_done; reflexivity|]; apply Pool.steps_refl.

(** Three items on a pool of two workers, the copy of the second one
    failing. The first two are taken together, the second finishes
    before the first, and the third is taken when a worker is free. *)
Lemma demo_schedule :
  exists p : @Pool.pool (string * bool) State,
    Pool.steps (download_item Demo.one_bad "/home/u" false) 2 Demo.batch_items
      (Pool.submit_all Demo.batch_items (init_state Demo.home_only [])) p
    /\ Pool.final p
    /\ Pool.phase p = Pool.Done
    /\ Pool.collected p
       = [("gs://b/a.txt", true); ("gs://b/bad", false); ("gs://b/c.txt", true)].
Proof.
  eexists. split.
  - pool_eval. pool_start. pool_start.
    pool_finish [0%nat] (@nil nat).
    pool_finish (@nil nat) (@nil nat).
    pool_collect "gs://b/a.txt" true.
    pool_collect "gs://b/bad" false.
    pool_start.
    pool_finish (@nil nat) (@nil nat).
    pool_collect "gs://b/c.txt" true.
    pool_done.
  - split; [split; [discriminate|split; reflexivity]|]. split; reflexivity.
Qed.



(* ===================================================================== *)
(** * Further properties of the code                                      *)
(* ===================================================================== *)

Section MonitorHighWater.
Import Monitor.

(** X1. Whatever the polls measure, the loop keeps [previous_size] at the
    largest size seen so far (zero included) and the bar has advanced
    by exactly what [previous_size] has gained: the bar shows the
    high-water mark of the destination size, so bytes that disappear
    and come back are not counted again. *)
Theorem monitor_high_water_mark (obs : list (option Z)) (st : loop_state) :
  previous_size (run_polls obs st) = fold_left Z.max (samples obs) (previous_size st)
  /\ n (bar (run_polls obs st)) - n (bar st)
     = previous_size (run_polls obs st) - previous_size st.
Proof.
  revert st. induction obs as [|[cur|] rest IH]; intros st.
  - simpl. split; lia.
  - change (run_polls (Some cur :: rest) st) with (run_polls rest (poll (Some cur) st)).
    change (samples (Some cur :: rest)) with (cur :: samples rest).
    destruct (IH (poll (Some cur) st)) as [H1 H2].
    assert (Hp : previous_size (poll (Some cur) st) = Z.max (previous_size st) cur
                 /\ n (bar (poll (Some cur) st)) - n (bar st)
                    = previous_size (poll (Some cur) st) - previous_size st).
    { simpl. destruct (cur >? previous_size st) eqn:E; simpl; split; lia. }
    destruct Hp as [Hp1 Hp2]. simpl fold_left. rewrite <- Hp1.
    split; [exact H1 | lia].
  - change (run_polls (None :: rest) st) with (run_polls rest st).
    exact (IH st).
Qed.

End MonitorHighWater.

Section AdapterEdges.

Variable w : World.

Lemma list_objects_run (bucket_path : string) (st : State) :
  list_objects w bucket_path st
  = let p := fst (subprocess_run w (ls_argv bucket_path) (fs st)) in
    let st' := emit (Run (ls_argv bucket_path) p)
                    (set_fs (snd (subprocess_run w (ls_argv bucket_path) (fs st))) st) in
    match p with
    | NotFound => (Raised FileNotFoundError, st')
    | Exited code out =>
        if code =? 0
        then (Returned (filter (fun item => truthy item = true)
                               (split_on "010"%char (strip out))), st')
        else (Returned [],
              emit (SayExc "Error listing objects: "
                           (CalledProcessError code (ls_argv bucket_path))) st')
    end.
Proof.
  unfold list_objects, ls_argv. rewrite run_checked_run.
  destruct (fst (subprocess_run w _ (fs st))) as [|code out]; [reflexivity|].
  simpl. destruct (code =? 0); reflexivity.
Qed.


End AdapterEdges.

Section ToolChecks.

Variable w : World.


(** X4. [check_package] starts no process and prints nothing for a package
    that is found; for a missing one it runs [pip install] once and
    answers whether that exited with status zero. *)
Theorem check_package_cases (package_name : string) (st : State) :
  (find_spec w package_name = true ->
   check_package w package_name st = (Returned true, st))
  /\ (find_spec w package_name = false ->
      forall code out,
        fst (subprocess_run w (pip_argv w package_name) (fs st)) = Exited code out ->
        fst (check_package w package_name st) = Returned (code =? 0)
        /\ Run (pip_argv w package_name) (Exited code out)
           ∈ trace (snd (check_package w package_name st))).
Proof.
  unfold check_package. split.
  - intros ->. reflexivity.
  - intros -> code out Hp. unfold bind, print. rewrite run_checked_run.
    simpl. fold (pip_argv w package_name). rewrite Hp.
    destruct (code =? 0); simpl; (split; [reflexivity|]);
      apply elem_of_app; left; apply elem_of_app; right; left.
Qed.

(** X5. [optimize_gsutil_config] never raises, whatever the files and the
    tool do. When [~/.boto] already mentions [parallel_thread_count] it
    starts no process and leaves the files alone: all it does is print
    its first line. *)
Theorem optimize_gsutil_config_is_harmless (st : State) :
  fst (optimize_gsutil_config w st) = Returned tt
  /\ (boto_configured w (fs st) = true ->
      optimize_gsutil_config w st
      = (Returned tt, emit (Say "Applying gsutil performance optimizations...") st)).
Proof.
  split; [apply optimize_gsutil_config_returns|].
  unfold boto_configured. intros H.
  destruct (fs st !! expanduser w "~/.boto") as [[|content]|] eqn:Eb;
    try discriminate H.
  unfold optimize_gsutil_config, bind at 1, print.
  unfold bind at 1, exists_. simpl fs. rewrite Eb.
  unfold bind at 1. unfold bind at 1, read_file. simpl fs. rewrite Eb.
  unfold ret. rewrite H. reflexivity.
Qed.

End ToolChecks.

Section Destinations.

Variable w : World.


Lemma prompt_for_destination_run (st : State) :
  prompt_for_destination w st
  = let prompt := "Enter destination directory [default: "
                  +:+ default_destination w (fs st) +:+ "]: " in
    match stdin st with
    | [] => (Raised EOFError, emit (Ask prompt) st)
    | typed :: rest =>
        let d := expanduser w (if truthy typed then typed
                               else default_destination w (fs st)) in
        let st1 := asked prompt rest st in
        match fs st !! d with
        | Some _ => (Returned (Some d), st1)
        | None =>
            match makedirs_error w d with
            | Some msg =>
                (Returned None,
                 emit (SayExc ("Error creating directory " +:+ d +:+ ": ") (OSError msg)) st1)
            | None =>
                (Returned (Some d),
                 emit (Say ("Created directory: " +:+ d))
                      (emit (Makedirs d) (set_fs (<[d := Dir]> (fs st)) st1)))
            end
        end
    end.
Proof.
  unfold prompt_for_destination, bind at 1. rewrite get_default_destination_run.
  unfold bind at 1, input.
  destruct (stdin st) as [|typed rest]; [reflexivity|].
  cbv zeta. unfold bind, exists_, makedirs, ret, asked. simpl fs.
  destruct (fs st !! expanduser w _) as [nd|] eqn:Hd; simpl; rewrite ?Hd;
    [reflexivity|].
  simpl. rewrite ?Hd. destruct (makedirs_error w _); reflexivity.
Qed.


End Destinations.

Section Selections.

Variable w : World.

Lemma nth_in_range (idx : Z) (items : list string) :
  in_range idx items = true -> nth (Z.to_nat idx) items EmptyString ∈ items.
Proof.
  unfold in_range. intros H. apply andb_true_iff in H as [H0 H1].
  apply list_elem_of_In. apply nth_In. lia.
Qed.

(** X8. A valid number in the single-file mode downloads exactly the item
    of that number into [destination/basename(item)]: apart from the
    prompt, the events are those of that one download, so the only
    processes are its size probe and its copy, and no directory is
    made. *)
Theorem single_file_downloads_the_selection
    (items : list string) (destination : string) (st : State)
    (typed : string) (rest : list string) (v : Z) :
  stdin st = typed :: rest ->
  Py.int typed = Returned v ->
  in_range (v - 1) items = true ->
  let item := nth (Z.to_nat (v - 1)) items EmptyString in
  let file_dest := path_join destination (basename item) in
  let prompt := "Enter the number of the file to download: " in
  item ∈ items
  /\ events_of (single_file w items destination) st
     = Ask prompt
       :: events_of (download_with_progress w item file_dest None) (asked prompt rest st)
  /\ (forall argv p,
        Run argv p ∈ events_of (single_file w items destination) st ->
        argv = du_argv item
        \/ argv = cp_argv (MAX_THREADS_PER_DOWNLOAD st) item file_dest)
  /\ (forall path, Makedirs path ∉ events_of (single_file w items destination) st).
Proof.
  intros Hin Hint Hrange item file_dest prompt.
  assert (Hev : events_of (single_file w items destination) st
                = Ask prompt
                  :: events_of (download_with_progress w item file_dest None)
                       (asked prompt rest st)).
  { apply events_of_app.
    unfold single_file, bind at 1, input. rewrite Hin.
    unfold bind at 1, lift. rewrite Hint, Hrange.
    fold item. fold file_dest. fold prompt. fold (asked prompt rest st).
    unfold bind, ret.
    pose proof (download_with_progress_trace w item file_dest None (asked prompt rest st))
      as Ht.
    destruct (download_with_progress w item file_dest None (asked prompt rest st))
      as [[b|e] st']; simpl in Ht |- *; rewrite Ht; simpl;
      rewrite <- app_assoc; reflexivity. }
  split; [apply nth_in_range; exact Hrange|].
  split; [exact Hev|]. rewrite Hev. split.
  - intros argv p H. apply elem_of_cons in H as [H|H]; [discriminate H|].
    exact (download_with_progress_processes w _ _ _ _ _ _ H).
  - intros path H. apply elem_of_cons in H as [H|H]; [discriminate H|].
    exact (download_with_progress_no_makedirs w _ _ _ _ _ H).
Qed.


(** X10. The multiple modes pick items in the order of the numbers typed,
    once per number, so a number typed twice is downloaded twice; a
    number outside the listing contributes nothing; and every item
    picked is an item of the listing. *)
Theorem select_follows_the_numbers (items : list string) :
  (forall indices x, x ∈ select indices items -> x ∈ items)
  /\ (forall l1 l2, select (l1 ++ l2) items = select l1 items ++ select l2 items)
  /\ (forall idx, in_range idx items = true ->
        select [idx] items = [nth (Z.to_nat idx) items EmptyString])
  /\ (forall idx, in_range idx items = false -> select [idx] items = [])
  /\ (forall indices, (length (select indices items) <= length indices)%nat).
Proof.
  split; [|split; [|split; [|split]]].
  - intros indices x Hx. unfold select in Hx.
    apply list_elem_of_In in Hx. apply in_map_iff in Hx as (idx & <- & Hidx).
    apply list_elem_of_In in Hidx. apply list_elem_of_filter in Hidx as [Hr _].
    apply nth_in_range. exact Hr.
  - intros l1 l2. unfold select. rewrite filter_app, map_app. reflexivity.
  - intros idx H. unfold select. rewrite filter_cons_True by exact H. reflexivity.
  - intros idx H. unfold select. rewrite filter_cons_False by congruence. reflexivity.
  - intros indices. unfold select. rewrite length_map. apply length_filter.
Qed.


Lemma batch_download_width_below_one
    (items : list string) (destination : string) (is_folders : bool) (st : State) :
  MAX_PARALLEL_DOWNLOADS st <= 0 ->
  batch_download w items destination is_folders st
  = (Raised ValueError,
     emit (Say ("Starting download of " +:+ pretty (length items) +:+ " "
                +:+ (if is_folders then "folders" else "files") +:+ " in parallel")) st).
Proof.
  intros H. unfold batch_download, bind, print, raise.
  destruct (MAX_PARALLEL_DOWNLOADS st <=? 0) eqn:E; [reflexivity|lia].
Qed.

(** X12. A pool width below one makes [ThreadPoolExecutor] raise
    [ValueError], and in the multiple modes that lands in the handler
    meant for the parse: after the line that announces the download
    the user is told the input is invalid, and nothing is
    downloaded. *)
Theorem multiple_reports_pool_error_as_invalid_input
    (items : list string) (destination : string) (is_folders : bool) (st : State)
    (typed : string) (rest : list string) (indices : list Z) :
  stdin st = typed :: rest ->
  parse_indices (split_on ","%char typed) = Returned indices ->
  select indices items <> [] ->
  MAX_PARALLEL_DOWNLOADS st <= 0 ->
  let what := if is_folders then "folders" else "files" in
  multiple w items destination is_folders st
  = (Returned tt,
     emit (Say "Invalid input. Please enter comma-separated numbers.")
       (emit (Say ("Starting download of " +:+ pretty (length (select indices items))
                   +:+ " " +:+ what +:+ " in parallel"))
          (asked ("Enter the numbers of " +:+ what
                  +:+ " to download (comma-separated): ") rest st))).
Proof.
  intros Hin Hparse Hsel Hwidth what.
  unfold multiple, bind at 1, input. rewrite Hin.
  unfold except_ValueError, bind at 1, lift. rewrite Hparse.
  destruct (select indices items) as [|x chosen] eqn:Es; [congruence|].
  rewrite batch_download_width_below_one by exact Hwidth.
  reflexivity.
Qed.

End Selections.

Section BatchOutput.

Variable w : World.


Lemma print_failed_run (l : list string) (st : State) :
  print_failed l st
  = (Returned tt,
     mkState (fs st) (stdin st)
             (trace st ++ map (fun item => Say ("  - " +:+ item)) l)
             (MAX_PARALLEL_DOWNLOADS st) (MAX_THREADS_PER_DOWNLOAD st)).
Proof.
  revert st. induction l as [|item rest IH]; intros st.
  - simpl. rewrite app_nil_r. destruct st; reflexivity.
  - simpl. unfold bind, print. rewrite IH. simpl. rewrite <- app_assoc. reflexivity.
Qed.

(** X14. The report of a batch always returns and changes nothing but the
    output: one line with the number of successes when there is one,
    and, when an item failed, a line with the number of failures
    followed by one line per failed item, in submission order. An empty
    list prints nothing. *)
Theorem report_lists_every_failure (results : list (string * bool)) (st : State) :
  report results st
  = (Returned tt,
     mkState (fs st) (stdin st) (trace st ++ report_lines results)
             (MAX_PARALLEL_DOWNLOADS st) (MAX_THREADS_PER_DOWNLOAD st)).
Proof.
  unfold report, report_lines, bind.
  destruct (bool_decide (successful results = [])) eqn:E1;
    [apply bool_decide_eq_true in E1 | apply bool_decide_eq_false in E1];
    (destruct (bool_decide (failed results = [])) eqn:E2;
     [apply bool_decide_eq_true in E2 | apply bool_decide_eq_false in E2]).
  - rewrite E1, E2. simpl. rewrite app_nil_r. destruct st; reflexivity.
  - rewrite E1. destruct (failed results) as [|f ff] eqn:Ef; [congruence|].
    unfold ret, print. rewrite print_failed_run. simpl.
    rewrite <- app_assoc. reflexivity.
  - rewrite E2. destruct (successful results) as [|s ss] eqn:Es; [congruence|].
    unfold print, ret. simpl. reflexivity.
  - destruct (successful results) as [|s ss] eqn:Es; [congruence|].
    destruct (failed results) as [|f ff] eqn:Ef; [congruence|].
    unfold print. rewrite print_failed_run. simpl.
    rewrite <- !app_assoc. reflexivity.
Qed.


End BatchOutput.

Section Buckets.

Lemma startswith_scheme (given : string) :
  startswith "gs://" ("gs://" +:+ given) = true.
Proof. unfold startswith. simpl. destruct given; reflexivity. Qed.

(** X16. The bucket argument is used as it is when it already starts with
    [gs://] and gets that prefix otherwise, so what [main] goes on
    with always starts with [gs://]; checking it changes nothing. *)
Theorem require_bucket_has_scheme (args : Args) (st st' : State) (b : string) :
  require_bucket args st = (Returned b, st') ->
  st' = st
  /\ startswith "gs://" b = true
  /\ exists given,
       bucket args = Some given /\ given <> EmptyString
       /\ b = (if startswith "gs://" given then given else "gs://" +:+ given).
Proof.
  unfold require_bucket.
  destruct (bucket args) as [given|]; [|discriminate].
  assert (Hgiven : given <> EmptyString ->
            (Returned (if startswith "gs://" given then given else "gs://" +:+ given), st)
            = (Returned b, st') ->
            st' = st
            /\ startswith "gs://" b = true
            /\ exists given',
                 Some given = Some given' /\ given' <> EmptyString
                 /\ b = (if startswith "gs://" given' then given'
                         else "gs://" +:+ given')).
  { intros Hne H.
    assert (Hb : b = if startswith "gs://" given then given else "gs://" +:+ given)
      by congruence.
    assert (Hst : st' = st) by congruence.
    split; [exact Hst|]. split.
    - rewrite Hb. destruct (startswith "gs://" given) eqn:E;
        [exact E | apply startswith_scheme].
    - exists given. split; [reflexivity|]. split; [exact Hne | exact Hb]. }
  destruct given as [|c given]; [discriminate|].
  apply Hgiven. discriminate.
Qed.

End Buckets.

Section Globals.

Variable w : World.

Lemma check_gsutil_installed_globals (st : State) :
  globals (snd (check_gsutil_installed w st)) = globals st.
Proof.
  unfold check_gsutil_installed. rewrite run_checked_run.
  destruct (fst (subprocess_run w _ (fs st))) as [|code out]; [reflexivity|].
  destruct (code =? 0); [|reflexivity].
  destruct (first_line out); reflexivity.
Qed.

Lemma optimize_gsutil_config_globals (st : State) :
  globals (snd (optimize_gsutil_config w st)) = globals st.
Proof.
  unfold optimize_gsutil_config, bind at 1, print.
  set (st0 := emit (Say "Applying gsutil performance optimizations...") st).
  cbv beta.
  match goal with
  | |- context [match ?body st0 with _ => _ end] =>
      assert (Hbody : globals (snd (body st0)) = globals st);
      [|destruct (body st0) as [[u|e] st1]; simpl in Hbody;
        [exact Hbody | destruct e; exact Hbody]]
  end.
  unfold bind at 1, exists_.
  destruct (fs st0 !! expanduser w "~/.boto") as [[|content]|] eqn:Eb; cbv beta iota.
  - unfold bind, read_file. rewrite Eb. reflexivity.
  - unfold bind at 1. unfold bind at 1, read_file. rewrite Eb. unfold ret.
    destruct (contains "parallel_thread_count" content); [reflexivity|].
    unfold bind. rewrite run_checked_run.
    destruct (fst (subprocess_run w _ (fs st0))) as [|code out]; [reflexivity|].
    destruct (code =? 0); reflexivity.
  - unfold bind at 1, ret. unfold bind. rewrite run_checked_run.
    destruct (fst (subprocess_run w _ (fs st0))) as [|code out]; [reflexivity|].
    destruct (code =? 0); reflexivity.
Qed.

(** X17. The two command-line numbers reach the downloads: when [main] goes
    on after its set-up the pool width is [--max-parallel] and the
    thread count is [--threads], so every copy a download then starts
    carries [GSUtil:parallel_thread_count=<threads>]. *)
Theorem arguments_reach_the_copy (args : Args) (st : State) :
  MAX_PARALLEL_DOWNLOADS (ready w args st) = max_parallel args
  /\ MAX_THREADS_PER_DOWNLOAD (ready w args st) = threads args
  /\ (forall source destination total_size argv p,
        Run argv p
        ∈ events_of (download_with_progress w source destination total_size)
                    (ready w args st) ->
        argv = du_argv source \/ argv = cp_argv (threads args) source destination)
  /\ (forall source destination,
        "GSUtil:parallel_thread_count=" +:+ pretty (threads args)
        ∈ cp_argv (threads args) source destination).
Proof.
  assert (Hg : MAX_PARALLEL_DOWNLOADS (ready w args st) = max_parallel args
               /\ MAX_THREADS_PER_DOWNLOAD (ready w args st) = threads args).
  { assert (H : globals (ready w args st) = (max_parallel args, threads args)).
    { unfold ready.
      rewrite optimize_gsutil_config_globals, check_gsutil_installed_globals.
      reflexivity. }
    unfold globals in H. split; congruence. }
  destruct Hg as [Hp Ht].
  split; [exact Hp|]. split; [exact Ht|]. split.
  - intros source destination total_size argv p Hin.
    rewrite <- Ht. exact (download_with_progress_processes w _ _ _ _ _ _ Hin).
  - intros source destination. unfold cp_argv. do 3 right. left.
Qed.

End Globals.

Section SizeProbeEdges.

Variable w : World.

Lemma lstrip_chars_spaces (l : list ascii) :
  Forall (fun c => is_space c = true) l -> lstrip_chars l = [].
Proof.
  induction 1 as [|c l Hc Hl IH]; [reflexivity|]. simpl. rewrite Hc. exact IH.
Qed.

Lemma parse_size_blank (out : string) :
  Forall (fun c => is_space c = true) (String.list_ascii_of_string out) ->
  parse_size out = Raised IndexError.
Proof.
  intros H. unfold parse_size, strip.
  rewrite (lstrip_chars_spaces _ H). reflexivity.
Qed.


End SizeProbeEdges.

Section EmptyListing.

Variable w : World.

(** X19. When the listing is empty, or cannot be made, the interactive mode
    says so and returns at once: the bucket name is the only line of
    input it reads, the listing is the only process it runs, and it
    makes no directory. *)
Theorem interactive_download_empty_listing
    (st : State) (typed : string) (rest : list string) :
  stdin st = typed :: rest ->
  let bucket := if startswith "gs://" typed then typed else "gs://" +:+ typed in
  let st1 := emit (Say ("Listing contents of " +:+ bucket +:+ "..."))
               (asked "Enter the GCS bucket name (e.g., gs://your-bucket): " rest st) in
  fst (list_objects w bucket st1) = Returned [] ->
  interactive_download w st
  = (Returned tt,
     emit (Say "No items found in the bucket or bucket does not exist.")
          (snd (list_objects w bucket st1)))
  /\ stdin (snd (interactive_download w st)) = rest.
Proof.
  intros Hin bucket st1 Hls.
  assert (Hrun : interactive_download w st
                 = (Returned tt,
                    emit (Say "No items found in the bucket or bucket does not exist.")
                         (snd (list_objects w bucket st1)))).
  { unfold interactive_download, bind at 1, input. rewrite Hin.
    fold bucket. unfold bind at 1, print.
    fold (asked "Enter the GCS bucket name (e.g., gs://your-bucket): " rest st).
    fold st1. unfold bind at 1.
    destruct (list_objects w bucket st1) as [r st2]. simpl in Hls. subst r.
    reflexivity. }
  split; [exact Hrun|]. rewrite Hrun. simpl.
  rewrite list_objects_run. cbv zeta.
  destruct (fst (subprocess_run w (ls_argv bucket) (fs st1))) as [|code out];
    [reflexivity|].
  destruct (code =? 0); reflexivity.
Qed.

End EmptyListing.

Section FileTransfers.

Variable w : World.

Lemma events_of_bind_ret {A B} (c : M A) (f : A -> B) (st : State) :
  events_of (x <- c ;; ret (f x)) st = events_of c st.
Proof.
  unfold events_of, bind, ret. destruct (c st) as [[a|e] st']; reflexivity.
Qed.

(** X20. In files mode a batch item is copied to
    [destination/basename(item)]: the only processes of its download
    are its size probe and that copy, no directory is made, and the
    result names the item itself. *)
Theorem download_item_files_mode (destination item : string) (st : State) :
  let file_dest := path_join destination (basename item) in
  (forall argv p,
      Run argv p ∈ events_of (download_item w destination false item) st ->
      argv = du_argv item
      \/ argv = cp_argv (MAX_THREADS_PER_DOWNLOAD st) item file_dest)
  /\ (forall path, Makedirs path ∉ events_of (download_item w destination false item) st)
  /\ (forall r, fst (download_item w destination false item st) = Returned r ->
        fst r = item
        /\ fst (download_with_progress w item file_dest None st) = Returned (snd r)).
Proof.
  intros file_dest.
  assert (Hev : events_of (download_item w destination false item) st
                = events_of (download_with_progress w item file_dest None) st).
  { unfold download_item. fold file_dest.
    exact (events_of_bind_ret (download_with_progress w item file_dest None)
             (fun success => (item, success)) st). }
  rewrite Hev. split; [|split].
  - intros argv p. apply download_with_progress_processes.
  - intros path. apply download_with_progress_no_makedirs.
  - intros r. unfold download_item, bind, ret. fold file_dest.
    destruct (download_with_progress w item file_dest None st) as [[b|e] st'];
      [|discriminate].
    simpl. intros H. injection H as <-. split; reflexivity.
Qed.

(** X21. On the command line [--file] wins over [--folder]: when a file is
    named, whatever else is given, the one download is that of
    [bucket/file] into [destination/basename(file)], so the object's
    own directories are not recreated, and no directory is made. *)
Theorem file_argument_takes_precedence
    (args : Args) (bucket destination name : string) (st : State) :
  file args = Some name ->
  name <> EmptyString ->
  let file_path := bucket +:+ "/" +:+ name in
  let file_dest := path_join destination (basename name) in
  (forall argv p,
      Run argv p ∈ events_of (cli_transfer w args bucket destination) st ->
      argv = du_argv file_path
      \/ argv = cp_argv (MAX_THREADS_PER_DOWNLOAD st) file_path file_dest)
  /\ (forall path, Makedirs path ∉ events_of (cli_transfer w args bucket destination) st)
  /\ (forall b,
        fst (download_with_progress w file_path file_dest None
               (emit (Say ("Downloading file " +:+ file_path +:+ " to " +:+ file_dest)) st))
        = Returned b ->
        fst (cli_transfer w args bucket destination st) = Returned tt
        /\ Say ((if b then "Successfully downloaded " else "Failed to download ")
                +:+ file_path)
           ∈ events_of (cli_transfer w args bucket destination) st).
Proof.
  intros Hfile Hname file_path file_dest.
  set (st1 := emit (Say ("Downloading file " +:+ file_path +:+ " to " +:+ file_dest)) st).
  assert (Htruthy : truthy_opt (file args) = true).
  { rewrite Hfile. simpl. unfold truthy.
    destruct name; [congruence|reflexivity]. }
  assert (Hrun : cli_transfer w args bucket destination st
                 = match download_with_progress w file_path file_dest None st1 with
                   | (Returned b, st2) => report_download file_path b st2
                   | (Raised e, st2) => (Raised e, st2)
                   end).
  { unfold cli_transfer. rewrite Htruthy, Hfile. reflexivity. }
  pose proof (download_with_progress_trace w file_path file_dest None st1) as Ht.
  assert (Hev : exists tail,
            events_of (cli_transfer w args bucket destination) st
            = Say ("Downloading file " +:+ file_path +:+ " to " +:+ file_dest)
              :: events_of (download_with_progress w file_path file_dest None) st1
              ++ tail
            /\ (forall ev, ev ∈ tail -> exists line, ev = Say line)
            /\ (forall b,
                  fst (download_with_progress w file_path file_dest None st1) = Returned b ->
                  tail = [Say ((if b then "Successfully downloaded "
                                else "Failed to download ") +:+ file_path)])).
  { destruct (download_with_progress w file_path file_dest None st1) as [[b|e] st2] eqn:Ed.
    - exists [Say ((if b then "Successfully downloaded " else "Failed to download ")
                   +:+ file_path)].
      split; [|split].
      + apply events_of_app. rewrite Hrun. simpl in Ht.
        destruct b; simpl; rewrite Ht; simpl; rewrite <- !app_assoc; reflexivity.
      + intros ev Hin. apply list_elem_of_singleton in Hin. eauto.
      + intros b' Hb. simpl in Hb. injection Hb as <-. reflexivity.
    - exists []. split; [|split].
      + apply events_of_app. rewrite Hrun. simpl in Ht |- *. rewrite Ht. simpl.
        rewrite app_nil_r, <- app_assoc. reflexivity.
      + intros ev Hin. inversion Hin.
      + intros b' Hb. discriminate Hb. }
  destruct Hev as (tail & Hev & Htail & Hlast).
  split; [|split].
  - intros argv p Hin. rewrite Hev in Hin.
    apply elem_of_cons in Hin as [Hin|Hin]; [discriminate Hin|].
    apply elem_of_app in Hin as [Hin|Hin].
    + exact (download_with_progress_processes w _ _ _ st1 _ _ Hin).
    + destruct (Htail _ Hin) as [line Hl]. discriminate Hl.
  - intros path Hin. rewrite Hev in Hin.
    apply elem_of_cons in Hin as [Hin|Hin]; [discriminate Hin|].
    apply elem_of_app in Hin as [Hin|Hin].
    + exact (download_with_progress_no_makedirs w _ _ _ _ _ Hin).
    + destruct (Htail _ Hin) as [line Hl]. discriminate Hl.
  - intros b Hb. split.
    + rewrite Hrun.
      destruct (download_with_progress w file_path file_dest None st1) as [[b'|e] st2];
        simpl in Hb; [|discriminate Hb].
      apply report_download_returns.
    + rewrite Hev, (Hlast b Hb). right. apply elem_of_app. right. left.
Qed.

End FileTransfers.

Section MonitorMeasure.
Import Monitor.

Lemma sum_sizes_none (sizes : list (option Z)) :
  sum_sizes sizes = None <-> None ∈ sizes.
Proof.
  induction sizes as [|[s|] rest IH]; simpl.
  - split; [discriminate|]. intros H. inversion H.
  - destruct (sum_sizes rest) as [t|].
    + split; [discriminate|]. intros H.
      apply elem_of_cons in H as [H|H]; [discriminate H|].
      apply IH in H. discriminate H.
    + split; [|reflexivity]. intros _. right. apply IH. reflexivity.
  - split; [|reflexivity]. intros _. left.
Qed.

Lemma sum_sizes_all (sizes : list Z) :
  sum_sizes (Some <$> sizes) = Some (foldr Z.add 0 sizes).
Proof.
  induction sizes as [|s rest IH]; [reflexivity|].
  rewrite fmap_cons.
  change (sum_sizes (Some s :: (Some <$> rest)))
    with (match sum_sizes (Some <$> rest) with
          | Some t => Some (s + t)
          | None => None
          end).
  rewrite IH. reflexivity.
Qed.

(** X22. A poll of a directory adds up the sizes of all its files; one file
    that cannot be measured makes the poll do nothing at all; and a
    destination that is not there yet counts as empty, which never
    moves a bar that has not gone below zero. *)
Theorem poll_measures_the_whole_directory (st : loop_state) :
  (forall sizes, current_size (IsDir (Some <$> sizes)) = Some (foldr Z.add 0 sizes))
  /\ (forall sizes, None ∈ sizes -> poll (current_size (IsDir sizes)) st = st)
  /\ (0 <= previous_size st -> poll (current_size Absent) st = st)
  /\ poll (current_size (IsFile None)) st = st.
Proof.
  split; [|split; [|split]].
  - intros sizes. apply sum_sizes_all.
  - intros sizes Hin. simpl. apply sum_sizes_none in Hin. rewrite Hin. reflexivity.
  - intros H. simpl. destruct (0 >? previous_size st) eqn:E; [lia|reflexivity].
  - reflexivity.
Qed.

End MonitorMeasure.

Section ListingNumbers.

Variable w : World.

Lemma print_listing_trace (items : list string) (i : nat) (st : State) :
  print_listing i items st
  = (Returned tt,
     mkState (fs st) (stdin st)
             (trace st ++ imap (fun k item => Say (pretty (i + k)%nat +:+ ". " +:+ item)) items)
             (MAX_PARALLEL_DOWNLOADS st) (MAX_THREADS_PER_DOWNLOAD st)).
Proof.
  revert i st. induction items as [|item rest IH]; intros i st.
  - simpl. rewrite app_nil_r. destruct st; reflexivity.
  - simpl. unfold bind, print. rewrite IH. simpl.
    rewrite <- app_assoc. simpl. rewrite Nat.add_0_r.
    do 3 f_equal. apply (f_equal (cons _)). apply imap_ext. intros k x _. simpl.
    replace (S (i + k))%nat with (i + S k)%nat by lia. reflexivity.
Qed.

(** X23. The numbers of the listing are the numbers of the selection: the
    listing prints the items in order, numbered from one, and the
    number printed next to an item selects that item in the
    single-file mode and passes the range check. *)
Theorem listing_numbers_select_their_items
    (items : list string) (k : nat) (item : string) (st : State) :
  items !! k = Some item ->
  events_of (print_listing 1 items) st !! k
  = Some (Say (pretty (S k) +:+ ". " +:+ item))
  /\ length (events_of (print_listing 1 items) st) = length items
  /\ in_range (Z.of_nat (S k) - 1) items = true
  /\ nth (Z.to_nat (Z.of_nat (S k) - 1)) items EmptyString = item.
Proof.
  intros Hk.
  assert (Hev : events_of (print_listing 1 items) st
                = imap (fun k item => Say (pretty (1 + k)%nat +:+ ". " +:+ item)) items).
  { apply events_of_app. rewrite print_listing_trace. reflexivity. }
  rewrite Hev. split; [|split; [|split]].
  - rewrite list_lookup_imap, Hk. reflexivity.
  - apply length_imap.
  - unfold in_range. apply lookup_lt_Some in Hk.
    apply andb_true_iff. split; [apply Z.leb_le | apply Z.ltb_lt]; lia.
  - replace (Z.to_nat (Z.of_nat (S k) - 1)) with k by lia.
    apply nth_lookup_Some with (d := EmptyString) in Hk. exact Hk.
Qed.

End ListingNumbers.

(* ===================================================================== *)
(** * The further properties on concrete inputs                           *)
(* ===================================================================== *)


Lemma check_package_cases_witness :
  fst (check_package Demo.no_tqdm "tqdm" (init_state Demo.home_only [])) = Returned false.
Proof.
  destruct (check_package_cases Demo.no_tqdm "tqdm" (init_state Demo.home_only []))
    as (_ & H).
  destruct (H eq_refl 1 EmptyString) as [Hr _]; [reflexivity | exact Hr].
Defined.

Lemma single_file_downloads_the_selection_witness :
  events_of (single_file Demo.good Demo.listed "/home/u")
            (init_state Demo.home_only ["1"])
  = Ask "Enter the number of the file to download: "
    :: events_of (download_with_progress Demo.good "gs://b/a.txt" "/home/u/a.txt" None)
         (asked "Enter the number of the file to download: " []
                (init_state Demo.home_only ["1"])).
Proof.
  destruct (single_file_downloads_the_selection Demo.good Demo.listed "/home/u"
              (init_state Demo.home_only ["1"]) "1" [] 1) as (_ & H & _);
    [reflexivity | reflexivity | reflexivity | exact H].
Defined.


Lemma multiple_reports_pool_error_as_invalid_input_witness :
  fst (multiple Demo.good Demo.listed "/home/u" false
         (set_globals 0 8 (init_state Demo.home_only ["1"]))) = Returned tt.
Proof.
  rewrite (multiple_reports_pool_error_as_invalid_input Demo.good Demo.listed "/home/u"
             false (set_globals 0 8 (init_state Demo.home_only ["1"])) "1" [] [0]).
  - reflexivity.
  - reflexivity.
  - reflexivity.
  - discriminate.
  - simpl. lia.
Defined.




Lemma require_bucket_has_scheme_witness :
  startswith "gs://" "gs://b" = true.
Proof.
  destruct (require_bucket_has_scheme Demo.args_bucket (init_state Demo.home_only [])
              (init_state Demo.home_only []) "gs://b") as (_ & H & _);
    [reflexivity | exact H].
Defined.

Lemma interactive_download_empty_listing_witness :
  stdin (snd (interactive_download DemoMore.broken
                (init_state Demo.home_only ["b"; "1"; "/x"; "1"]))) = ["1"; "/x"; "1"].
Proof.
  destruct (interactive_download_empty_listing DemoMore.broken
              (init_state Demo.home_only ["b"; "1"; "/x"; "1"]) "b" ["1"; "/x"; "1"])
    as (_ & H); [reflexivity | reflexivity | exact H].
Defined.

Lemma file_argument_takes_precedence_witness :
  fst (cli_transfer Demo.good DemoMore.args_file_and_folder "gs://b" "/home/u"
         (init_state Demo.home_only [])) = Returned tt
  /\ Say "Successfully downloaded gs://b/docs/a.txt"
     ∈ events_of (cli_transfer Demo.good DemoMore.args_file_and_folder "gs://b" "/home/u")
                 (init_state Demo.home_only []).
Proof.
  destruct (file_argument_takes_precedence Demo.good DemoMore.args_file_and_folder
              "gs://b" "/home/u" "docs/a.txt" (init_state Demo.home_only []))
    as (_ & _ & H); [reflexivity | discriminate |].
  apply (H true). vm_compute. reflexivity.
Defined.

Lemma listing_numbers_select_their_items_witness :
  events_of (print_listing 1 Demo.listed) (init_state Demo.home_only []) !! 1%nat
  = Some (Say "2. gs://b/dir/").
Proof.
  destruct (listing_numbers_select_their_items Demo.listed 1 "gs://b/dir/"
              (init_state Demo.home_only [])) as (H & _); [reflexivity | exact H].
Defined.


Lemma select_follows_the_numbers_witness :
  select [0; 0] Demo.listed = ["gs://b/a.txt"; "gs://b/a.txt"].
Proof.
  destruct (select_follows_the_numbers Demo.listed) as (_ & Happ & Hone & _).
  change (select [0; 0] Demo.listed) with (select ([0] ++ [0]) Demo.listed).
  rewrite (Happ [0] [0]), (Hone 0) by reflexivity. reflexivity.
Defined.

Lemma optimize_gsutil_config_is_harmless_witness :
  optimize_gsutil_config Demo.good
    (init_state {[ "/home/u/.boto" := File "parallel_thread_count = 8" ]} [])
  = (Returned tt,
     emit (Say "Applying gsutil performance optimizations...")
          (init_state {[ "/home/u/.boto" := File "parallel_thread_count = 8" ]} [])).
Proof.
  destruct (optimize_gsutil_config_is_harmless Demo.good
              (init_state {[ "/home/u/.boto" := File "parallel_thread_count = 8" ]} []))
    as (_ & H).
  apply H. vm_compute. reflexivity.
Defined.

Lemma poll_measures_the_whole_directory_witness :
  Monitor.poll (Monitor.current_size (Monitor.IsDir [Some 4; None; Some 6]))
               (Monitor.loop_init (Monitor.tqdm 10))
  = Monitor.loop_init (Monitor.tqdm 10).
Proof.
  destruct (poll_measures_the_whole_directory (Monitor.loop_init (Monitor.tqdm 10)))
    as (_ & H & _).
  apply H. right. left.
Defined.
